(** * EasyTunnel: relay (server) and agent (client) as event-driven state machines

    The relay is [server/src/index.ts] (Express + Socket.IO), the agent is
    [client/src/index.ts].  Both are single-threaded Node processes: every
    callback (socket event, HTTP request, timer, acknowledgement) runs to
    completion before the next one starts.  Each callback is therefore a
    function from the process state to a new state and the list of effects it
    performs; a run of the process is a fold over the events the Node event
    loop delivers.  Logging is left out. *)

From stdpp Require Import gmap strings list fin_maps pretty.
From Stdlib Require Import ZArith NArith Lia.

Open Scope string_scope.
Open Scope list_scope.

(** ** Wire-level data ([types.ts]) *)

(** Values of TypeScript type [any] that travel as bodies. *)
#[warnings="-register-all"]
Inductive Json : Type :=
| JUndefined
| JNull
| JBool (b : bool)
| JNumber (n : Z)
| JString (s : string)
| JObject (fields : list (string * Json)).

(** [Record<string, string>]: the entries of the object, in insertion order. *)
Abbreviation Headers := (list (string * string)).

Record TunnelRequest := {
  method : string;
  path : string;
  headers : Headers;
  body : Json
}.

Record TunnelResponse := {
  statusCode : Z;
  res_headers : Headers;
  res_body : Json
}.

(** [{ error: msg }] *)
Definition error_body (msg : string) : Json := JObject [("error", JString msg)].

(** JavaScript [a || b] on a possibly undefined string: the empty string is
    falsy as well. *)
Definition or_default (a : option string) (b : string) : string :=
  match a with
  | Some s => if decide (s = EmptyString) then b else s
  | None => b
  end.

(** ** The relay *)

Module Server.

(** *** Credentials *)

Record JWTPayload := {
  clientId : option string;
  type : string;
  iat : option Z;
  exp : option Z
}.

(** Tokens of the [jsonwebtoken] library, symbolically: a token is either a
    string that is no signed token at all, or a payload signed under a key. *)
Inductive Token : Type :=
| Malformed (raw : string)
| Signed (payload : JWTPayload) (key : string).

(** [jwt.verify(token, secret)] at clock [clock] (seconds); [None] stands for
    the exception it throws (bad signature, malformed token, expired). *)
Definition jwt_verify (token : Token) (secret : string) (clock : Z) : option JWTPayload :=
  match token with
  | Malformed _ => None
  | Signed payload key =>
      if decide (key = secret) then
        match exp payload with
        | Some e => if (e <=? clock)%Z then None else Some payload
        | None => Some payload
        end
      else None
  end.

(** [jwt.sign(payload, secret, { expiresIn })] at clock [clock] (seconds). *)
Definition jwt_sign (cid : string) (ty : string) (secret : string) (expiresIn clock : Z) : Token :=
  Signed {| clientId := Some cid; type := ty; iat := Some clock;
            exp := Some (clock + expiresIn)%Z |} secret.

(** [process.env] as far as the relay's credential handling reads it. *)
Record Env := { JWT_SECRET : option string }.

(** [process.env.JWT_SECRET || 'default-secret'] *)
Definition secret (env : Env) : string := or_default (JWT_SECRET env) "default-secret".

(** [generateToken] of [utils/generateToken.ts]; [uuid] is the value of
    [uuidv4()]. *)
Definition generateToken (env : Env) (uuid : string) (clock : Z) : Token :=
  jwt_sign uuid "tunnel-client" (secret env) (30 * 24 * 3600) clock.

Inductive AuthResult : Type :=
| Accept (cid : string)
| Refuse (reason : string).

(** JavaScript [!decoded.clientId] *)
Definition falsy (s : option string) : bool :=
  match s with
  | Some s => bool_decide (s = EmptyString)
  | None => true
  end.

(** The [io.use] authentication middleware.  [token] is
    [socket.handshake.auth.token]; [None] is an absent or empty token. *)
Definition auth_middleware (env : Env) (clock : Z) (token : option Token) : AuthResult :=
  match token with
  | None => Refuse "Authentication token required"
  | Some t =>
      match jwt_verify t (secret env) clock with
      | None => Refuse "Invalid token"
      | Some decoded =>
          if falsy (clientId decoded) || negb (bool_decide (type decoded = "tunnel-client"))
          then Refuse "Invalid token payload"
          else Accept (default EmptyString (clientId decoded))
      end
  end.

(** *** State *)

Record Socket := {
  socket_id : nat;
  data_clientId : string
}.

Record ClientConnection := {
  socket : Socket;
  authenticated : bool;
  lastHeartbeat : N
}.

(** State of the promise a request handler awaits. *)
Inductive Promise : Type :=
| Pending
| Fulfilled (response : TunnelResponse)
| Rejected.

(** One invocation of the [app.all('*')] handler that got past the
    no-client check: the closure it leaves behind while it awaits. *)
Record Request := {
  rq_socket : nat;          (* the socket [tunnel_request] was emitted on *)
  rq_timer : option N;      (* [timeout]: when it is due, while armed *)
  rq_ack : bool;            (* Socket.IO still holds the acknowledgement callback *)
  rq_promise : Promise      (* [responsePromise] *)
}.

Record State := {
  activeClient : option ClientConnection;
  now : N;                      (* [Date.now()], milliseconds *)
  listening : gset nat;         (* connected sockets that carry the handlers of [io.on('connection')] *)
  next_socket : nat;            (* Socket.IO gives every connection an id of its own *)
  requests : gmap nat Request;
  next_request : nat
}.

Definition init : State :=
  {| activeClient := None; now := 0; listening := ∅; next_socket := 0;
     requests := ∅; next_request := 0 |}.

(** *** Effects *)

Inductive Output : Type :=
| HandshakeError (sid : nat) (msg : string)     (* [next(new Error(msg))] *)
| EmitError (sid : nat) (msg : string)          (* [socket.emit('error', msg)] *)
| SocketDisconnect (sid : nat)                  (* [socket.disconnect()] *)
| EmitHeartbeatAck (sid : nat)                  (* [socket.emit('heartbeat_ack')] *)
| EmitTunnelRequest (sid ack : nat) (req : TunnelRequest)
| ResSetHeader (rid : nat) (key value : string) (* [res.setHeader(key, value)] *)
| ResSend (rid : nat) (status : Z) (body : Json)  (* [res.status(status).send(body)] *)
| ResJson (rid : nat) (status : Z) (body : Json)  (* [res.status(status).json(body)] *)
| Unhandled (rid : nat).                        (* TypeError leaving the async handler *)

(** Events the Node event loop delivers to the relay. *)
Inductive Event : Type :=
| Advance (dt : N)                         (* time passes *)
| Connect (token : option Token)           (* a client opens a control connection *)
| Heartbeat (sid : nat)                    (* ['heartbeat'] arrives on socket [sid] *)
| TunnelResponseEvent (sid : nat) (response : TunnelResponse)
| Disconnect (sid : nat)                   (* the transport of socket [sid] is gone *)
| SocketError (sid : nat)
| HttpRequest (req : TunnelRequest)        (* a public HTTP request *)
| Ack (sid ack : nat) (response : TunnelResponse)  (* the client called the callback *)
| RequestTimeout (rid : nat).                     (* the timer of request [rid] fires *)

(** *** Record updates *)

Definition set_activeClient (a : option ClientConnection) (st : State) : State :=
  {| activeClient := a; now := now st; listening := listening st;
     next_socket := next_socket st; requests := requests st;
     next_request := next_request st |}.

Definition set_now (t : N) (st : State) : State :=
  {| activeClient := activeClient st; now := t; listening := listening st;
     next_socket := next_socket st; requests := requests st;
     next_request := next_request st |}.

Definition set_listening (l : gset nat) (st : State) : State :=
  {| activeClient := activeClient st; now := now st; listening := l;
     next_socket := next_socket st; requests := requests st;
     next_request := next_request st |}.

Definition set_next_socket (n : nat) (st : State) : State :=
  {| activeClient := activeClient st; now := now st; listening := listening st;
     next_socket := n; requests := requests st;
     next_request := next_request st |}.

Definition set_requests (r : gmap nat Request) (st : State) : State :=
  {| activeClient := activeClient st; now := now st; listening := listening st;
     next_socket := next_socket st; requests := r;
     next_request := next_request st |}.

Definition set_next_request (n : nat) (st : State) : State :=
  {| activeClient := activeClient st; now := now st; listening := listening st;
     next_socket := next_socket st; requests := requests st;
     next_request := n |}.

Definition set_lastHeartbeat (t : N) (c : ClientConnection) : ClientConnection :=
  {| socket := socket c; authenticated := authenticated c; lastHeartbeat := t |}.

(** *** Handlers of [io.on('connection')] *)

(** The body of the connection handler for an authenticated socket. *)
Definition on_connection (sock : Socket) (st : State) : State * list Output :=
  match activeClient st with
  | Some _ =>
      (st, [EmitError (socket_id sock) "Another client is already connected";
            SocketDisconnect (socket_id sock)])
  | None =>
      (set_listening ({[socket_id sock]} ∪ listening st)
         (set_activeClient
            (Some {| socket := sock; authenticated := true; lastHeartbeat := now st |}) st),
       [])
  end.

(** [socket.on('heartbeat')] *)
Definition on_heartbeat (sid : nat) (st : State) : State * list Output :=
  match activeClient st with
  | Some c => (set_activeClient (Some (set_lastHeartbeat (now st) c)) st, [EmitHeartbeatAck sid])
  | None => (st, [])
  end.

(** [socket.on('disconnect')] *)
Definition on_disconnect (sid : nat) (st : State) : State * list Output :=
  match activeClient st with
  | Some c =>
      if decide (socket_id (socket c) = sid) then (set_activeClient None st, []) else (st, [])
  | None => (st, [])
  end.

(** *** The [app.all('*')] handler *)

(** The [catch] block: its log entry reads [activeClient.socket.data.clientId]
    before the reply is written. *)
Definition catch_block (rid : nat) (st : State) : list Output :=
  match activeClient st with
  | Some _ => [ResJson rid 500 (error_body "Failed to process request")]
  | None => [Unhandled rid]
  end.

(** The rest of the [try] block once [await responsePromise] returned: its
    log entry reads [activeClient.socket.data.clientId] too, and a TypeError
    there lands in the [catch] block. *)
Definition after_await (rid : nat) (response : TunnelResponse) (st : State) : list Output :=
  match activeClient st with
  | Some _ =>
      map (fun kv => ResSetHeader rid kv.1 kv.2) (res_headers response)
      ++ [ResSend rid (statusCode response) (res_body response)]
  | None => catch_block rid st
  end.

(** The handler up to [await responsePromise]. *)
Definition on_request (req : TunnelRequest) (st : State) : State * list Output :=
  let rid := next_request st in
  match activeClient st with
  | None =>
      (set_next_request (S rid) st,
       [ResJson rid 503 (error_body "Tunnel client not connected")])
  | Some c =>
      let r := {| rq_socket := socket_id (socket c);
                  rq_timer := Some (now st + 30000)%N;
                  rq_ack := true;
                  rq_promise := Pending |} in
      (set_next_request (S rid) (set_requests (<[rid := r]> (requests st)) st),
       [EmitTunnelRequest (socket_id (socket c)) rid req])
  end.

(** The acknowledgement callback: [clearTimeout(timeout); resolve(response)].
    Resolving a settled promise does nothing. *)
Definition on_ack (rid : nat) (r : Request) (response : TunnelResponse) (st : State)
  : State * list Output :=
  match rq_promise r with
  | Pending =>
      let r' := {| rq_socket := rq_socket r; rq_timer := None; rq_ack := false;
                   rq_promise := Fulfilled response |} in
      let st' := set_requests (<[rid := r']> (requests st)) st in
      (st', after_await rid response st')
  | _ =>
      let r' := {| rq_socket := rq_socket r; rq_timer := None; rq_ack := false;
                   rq_promise := rq_promise r |} in
      (set_requests (<[rid := r']> (requests st)) st, [])
  end.

(** The timer callback: [reject(new Error('Request timeout'))].  Rejecting a
    settled promise does nothing. *)
Definition on_timeout (rid : nat) (r : Request) (st : State) : State * list Output :=
  match rq_promise r with
  | Pending =>
      let r' := {| rq_socket := rq_socket r; rq_timer := None; rq_ack := rq_ack r;
                   rq_promise := Rejected |} in
      let st' := set_requests (<[rid := r']> (requests st)) st in
      (st', catch_block rid st')
  | _ =>
      let r' := {| rq_socket := rq_socket r; rq_timer := None; rq_ack := rq_ack r;
                   rq_promise := rq_promise r |} in
      (set_requests (<[rid := r']> (requests st)) st, [])
  end.

(** *** The event loop *)

(** A socket event reaches a handler only on a connected socket that had the
    handlers installed; an acknowledgement only while Socket.IO holds the
    callback for it on that socket; a timer only while armed and due. *)
Definition step (env : Env) (st : State) (ev : Event) : State * list Output :=
  match ev with
  | Advance dt => (set_now (now st + dt)%N st, [])
  | Connect token =>
      let sid := next_socket st in
      let st := set_next_socket (S sid) st in
      match auth_middleware env (Z.of_N (now st) / 1000) token with
      | Refuse msg => (st, [HandshakeError sid msg])
      | Accept cid => on_connection {| socket_id := sid; data_clientId := cid |} st
      end
  | Heartbeat sid =>
      if decide (sid ∈ listening st) then on_heartbeat sid st else (st, [])
  | TunnelResponseEvent sid _ => (st, [])
  | SocketError sid => (st, [])
  | Disconnect sid =>
      if decide (sid ∈ listening st)
      then on_disconnect sid (set_listening (listening st ∖ {[sid]}) st)
      else (st, [])
  | HttpRequest req => on_request req st
  | Ack sid rid response =>
      match requests st !! rid with
      | Some r =>
          if decide (sid ∈ listening st ∧ rq_socket r = sid ∧ rq_ack r = true)
          then on_ack rid r response st
          else (st, [])
      | None => (st, [])
      end
  | RequestTimeout rid =>
      match requests st !! rid with
      | Some r =>
          match rq_timer r with
          | Some due => if decide (due ≤ now st)%N then on_timeout rid r st else (st, [])
          | None => (st, [])
          end
      | None => (st, [])
      end
  end.

(** State after a sequence of events, with everything that was output. *)
Fixpoint run (env : Env) (st : State) (evs : list Event) : State * list Output :=
  match evs with
  | [] => (st, [])
  | ev :: evs =>
      let '(st1, out1) := step env st ev in
      let '(st2, out2) := run env st1 evs in
      (st2, out1 ++ out2)
  end.

(** *** Vocabulary for the properties *)

Definition is_pending (p : Promise) : bool :=
  match p with
  | Pending => true
  | _ => false
  end.

(** The requests whose handler is still suspended in [await]. *)
Definition pending (st : State) : gset nat :=
  dom (filter (fun kr => is_pending (rq_promise kr.2) = true) (requests st)).

(** The HTTP answers written for request [rid]. *)
Definition is_reply (rid : nat) (o : Output) : bool :=
  match o with
  | ResSend rid' _ _ | ResJson rid' _ _ => bool_decide (rid' = rid)
  | _ => false
  end.

Definition replies (rid : nat) (outs : list Output) : list Output :=
  List.filter (is_reply rid) outs.

(** HTTP status codes by name. *)
Definition INTERNAL_SERVER_ERROR : Z := 500.
Definition SERVICE_UNAVAILABLE : Z := 503.
Definition GATEWAY_TIMEOUT : Z := 504.

(** What one event writes to the caller of request [rid]: at most one
    answer, and only if the request was new or pending before; a request
    that is new or pending afterwards got none. *)
Definition writes_once (rid : nat) (st st' : State) (out : list Output) : Prop :=
  (replies rid out = [] ∨
   ((length (replies rid out) ≤ 1)%nat ∧
    ((next_request st ≤ rid)%nat ∨ rid ∈ pending st) ∧
    ¬ ((next_request st' ≤ rid)%nat ∨ rid ∈ pending st'))) ∧
  (((next_request st' ≤ rid)%nat ∨ rid ∈ pending st') →
   ((next_request st ≤ rid)%nat ∨ rid ∈ pending st)).

(** The events that can settle request [rid]: its acknowledgement and its
    timer. *)
Definition is_trigger (rid : nat) (ev : Event) : Prop :=
  match ev with
  | Ack _ rid' _ | RequestTimeout rid' => rid' = rid
  | _ => False
  end.

(** How the entry of a request may change: while it is pending it is the
    entry that was made at submission, and once the promise is settled its
    state stays. *)
Definition evolves (r r' : Request) : Prop :=
  (rq_promise r' = Pending → r' = r) ∧
  (rq_promise r ≠ Pending → rq_promise r' = rq_promise r).

(** What holds of every state the relay can be in. *)
Record inv (st : State) : Prop := {
  inv_listening :
    listening st = match activeClient st with
                   | Some c => {[socket_id (socket c)]}
                   | None => ∅
                   end;
  inv_socket : ∀ c, activeClient st = Some c → (socket_id (socket c) < next_socket st)%nat;
  inv_fresh : ∀ rid, (next_request st ≤ rid)%nat → requests st !! rid = None;
  inv_pending : ∀ rid r, requests st !! rid = Some r → rq_promise r = Pending →
                rq_ack r = true ∧ is_Some (rq_timer r)
}.

(** *** Further vocabulary *)

(** The token is a payload signed under the secret the relay verifies with. *)
Definition well_signed (env : Env) (token : option Token) : Prop :=
  ∃ payload, token = Some (Signed payload (secret env)).

(** What holds of the session record in every state the relay can be in. *)
Record session_ok (st : State) : Prop := {
  session_authenticated : ∀ c, activeClient st = Some c → authenticated c = true;
  session_identified : ∀ c, activeClient st = Some c → data_clientId (socket c) ≠ EmptyString;
  session_heartbeat : ∀ c, activeClient st = Some c → (lastHeartbeat c ≤ now st)%N
}.

(** Every armed request timer is due within 30000 ms, and every request was
    emitted on a socket that exists. *)
Record requests_ok (st : State) : Prop := {
  requests_due : ∀ rid r due, requests st !! rid = Some r → rq_timer r = Some due →
                 (due ≤ now st + 30000)%N;
  requests_socket : ∀ rid r, requests st !! rid = Some r → (rq_socket r < next_socket st)%nat
}.

(** The socket an effect is addressed to, for the effects that go to the
    agent over an accepted connection. *)
Definition sent_to (o : Output) : option nat :=
  match o with
  | EmitHeartbeatAck sid | EmitTunnelRequest sid _ _ => Some sid
  | _ => None
  end.

(** Request [rid] was emitted on socket [sock], that socket is gone, and no
    answer has fulfilled the request. *)
Definition orphaned (rid sock : nat) (st : State) : Prop :=
  (sock ∉ listening st) ∧ (sock < next_socket st)%nat ∧
  ∃ r, requests st !! rid = Some r ∧ rq_socket r = sock ∧
       (rq_promise r = Pending ∨ rq_promise r = Rejected).

End Server.

(** ** The agent *)

Module Client.

Record TunnelConfig := {
  serverUrl : string;
  authToken : string;
  localPort : N;
  localHost : string;
  heartbeatInterval : N;
  requestTimeout : N;
  reconnectInterval : N
}.

(** *** The local service, as [axios] shows it *)

Record AxiosRequest := {
  ax_method : string;
  ax_url : string;
  ax_headers : Headers;
  ax_data : Json;
  ax_timeout : N
}.

(** With [validateStatus: () => true] every HTTP answer is a response; an
    error carries [error.code] and [error.message]. *)
Inductive AxiosResult : Type :=
| AxiosResponse (status : Z) (hs : Headers) (data : Json)
| AxiosError (code message : string).

(** What [await] gives back: a value, or a thrown [Error] with its message. *)
Inductive Settled (A : Type) : Type :=
| Returns (a : A)
| Throws (message : string).
Arguments Returns {A} a.
Arguments Throws {A} message.

(** *** State *)

Inductive SocketStatus : Type := SockOpening | SockConnected | SockClosed.

Inductive ConnectionState : Type := Disconnected | Connecting | Connected.

Inductive TimerKind : Type :=
| HeartbeatTick     (* the [setInterval] of [startHeartbeat] *)
| ReconnectOnce.    (* the [setTimeout] of [scheduleReconnect] *)

#[global] Instance TimerKind_eq_dec : EqDecision TimerKind :=
  ltac:(solve_decision).

Record Timer := { kind : TimerKind; delay : N }.

Record State := {
  socket : option nat;               (* [this.socket]: which of [sockets] *)
  sockets : list SocketStatus;       (* every socket [io(...)] made, in order *)
  heartbeatHandle : option nat;      (* [this.heartbeatInterval] *)
  reconnectTimeout : option nat;     (* [this.reconnectTimeout] *)
  timers : gmap nat Timer;           (* timers armed in the event loop *)
  next_timer : nat
}.

(** The object the constructor leaves. *)
Definition constructed : State :=
  {| socket := None; sockets := []; heartbeatHandle := None;
     reconnectTimeout := None; timers := ∅; next_timer := 0 |}.

Inductive Output : Type :=
| IoConnect (sid : nat) (url token : string)   (* [io(serverUrl, { auth: { token } })] *)
| EmitHeartbeat (sid : nat)                    (* [socket.emit('heartbeat')] *)
| Callback (sid ack : nat) (response : TunnelResponse).  (* [callback(response)] *)

Inductive Event : Type :=
| SocketConnect (sid : nat)          (* ['connect']: the handshake succeeded *)
| SocketConnectError (sid : nat)     (* ['connect_error']: the handshake failed *)
| SocketDisconnect (sid : nat)       (* ['disconnect'] *)
| SocketErrorEvent (sid : nat)       (* ['error'] *)
| TunnelRequestEvent (sid ack : nat) (req : TunnelRequest)
| HeartbeatAck (sid : nat)
| TimerFires (tid : nat).

Definition set_socket (s : option nat) (st : State) : State :=
  {| socket := s; sockets := sockets st; heartbeatHandle := heartbeatHandle st;
     reconnectTimeout := reconnectTimeout st; timers := timers st;
     next_timer := next_timer st |}.

Definition set_sockets (l : list SocketStatus) (st : State) : State :=
  {| socket := socket st; sockets := l; heartbeatHandle := heartbeatHandle st;
     reconnectTimeout := reconnectTimeout st; timers := timers st;
     next_timer := next_timer st |}.

Definition set_heartbeatHandle (h : option nat) (st : State) : State :=
  {| socket := socket st; sockets := sockets st; heartbeatHandle := h;
     reconnectTimeout := reconnectTimeout st; timers := timers st;
     next_timer := next_timer st |}.

Definition set_reconnectTimeout (h : option nat) (st : State) : State :=
  {| socket := socket st; sockets := sockets st; heartbeatHandle := heartbeatHandle st;
     reconnectTimeout := h; timers := timers st;
     next_timer := next_timer st |}.

(** [setTimeout] / [setInterval]: arm a timer, return its handle. *)
Definition arm (t : Timer) (st : State) : nat * State :=
  (next_timer st,
   {| socket := socket st; sockets := sockets st; heartbeatHandle := heartbeatHandle st;
      reconnectTimeout := reconnectTimeout st;
      timers := <[next_timer st := t]> (timers st);
      next_timer := S (next_timer st) |}).

(** [clearTimeout] / [clearInterval] *)
Definition clear (h : nat) (st : State) : State :=
  {| socket := socket st; sockets := sockets st; heartbeatHandle := heartbeatHandle st;
     reconnectTimeout := reconnectTimeout st;
     timers := delete h (timers st);
     next_timer := next_timer st |}.

(** [this.socket?.connected] *)
Definition connected (st : State) : bool :=
  match socket st with
  | Some sid =>
      match sockets st !! sid with
      | Some SockConnected => true
      | _ => false
      end
  | None => false
  end.

(** The state of the connection controller, read off [this.socket]. *)
Definition connection_state (st : State) : ConnectionState :=
  match socket st with
  | Some sid =>
      match sockets st !! sid with
      | Some SockOpening => Connecting
      | Some SockConnected => Connected
      | _ => Disconnected
      end
  | None => Disconnected
  end.

(** The reconnect timers that are armed. *)
Definition reconnect_timers (st : State) : gmap nat Timer :=
  filter (fun kt => kind kt.2 = ReconnectOnce) (timers st).

Section Agent.

Variable config : TunnelConfig.
Variable axios : AxiosRequest → AxiosResult.

Definition startHeartbeat (st : State) : State :=
  let st := match heartbeatHandle st with
            | Some h => clear h st
            | None => st
            end in
  let '(h, st) := arm {| kind := HeartbeatTick; delay := heartbeatInterval config |} st in
  set_heartbeatHandle (Some h) st.

Definition stopHeartbeat (st : State) : State :=
  match heartbeatHandle st with
  | Some h => set_heartbeatHandle None (clear h st)
  | None => st
  end.

(** [connect]: [io(...)] returns at once, the outcome of the handshake comes
    later as an event on the new socket; [setupSocketListeners] installs the
    handlers that [step] dispatches to. *)
Definition connect (st : State) : State * list Output :=
  if connected st then (st, [])
  else
    let sid := length (sockets st) in
    let st := set_socket (Some sid) (set_sockets (sockets st ++ [SockOpening]) st) in
    (startHeartbeat st, [IoConnect sid (serverUrl config) (authToken config)]).

(** [start] *)
Definition start : State * list Output := connect constructed.

Definition scheduleReconnect (st : State) : State :=
  let st := match reconnectTimeout st with
            | Some h => clear h st
            | None => st
            end in
  let '(h, st) := arm {| kind := ReconnectOnce; delay := reconnectInterval config |} st in
  set_reconnectTimeout (Some h) st.

(** [socket.on('connect')] *)
Definition on_connect (st : State) : State :=
  match reconnectTimeout st with
  | Some h => set_reconnectTimeout None (clear h st)
  | None => st
  end.

(** [socket.on('disconnect')] *)
Definition on_disconnect (st : State) : State :=
  scheduleReconnect (stopHeartbeat st).

Definition localUrl (req : TunnelRequest) : string :=
  "http://" +:+ localHost config +:+ ":" +:+ pretty (localPort config) +:+ path req.

(** The argument of the [axios] call. *)
Definition axios_config (req : TunnelRequest) : AxiosRequest :=
  {| ax_method := method req; ax_url := localUrl req;
     ax_headers := headers req; ax_data := body req;
     ax_timeout := requestTimeout config |}.

Definition handleTunnelRequest (req : TunnelRequest) : Settled TunnelResponse :=
  match axios (axios_config req) with
  | AxiosResponse status hs data =>
      Returns {| statusCode := status; res_headers := hs; res_body := data |}
  | AxiosError code message =>
      if decide (code = "ECONNREFUSED")
      then Throws "Local service is not running"
      else Throws message
  end.

(** [socket.on('tunnel_request')] *)
Definition on_tunnel_request (sid ack : nat) (req : TunnelRequest) : list Output :=
  match handleTunnelRequest req with
  | Returns response => [Callback sid ack response]
  | Throws message =>
      [Callback sid ack
         {| statusCode := 500; res_headers := []; res_body := error_body message |}]
  end.

(** The callbacks of the two timers.  [connect] never throws, so the [catch]
    around it in the reconnect callback is never entered. *)
Definition on_timer (tid : nat) (t : Timer) (st : State) : State * list Output :=
  match kind t with
  | HeartbeatTick =>
      if connected st then (st, [EmitHeartbeat (default 0 (socket st))]) else (st, [])
  | ReconnectOnce => connect (clear tid st)
  end.

(** A socket tells ['connect'] or ['connect_error'] once while it is opening
    and ['disconnect'] once while it is connected; with [reconnection: false]
    a closed socket stays closed.  No handler is installed for
    ['connect_error']. *)
Definition step (st : State) (ev : Event) : State * list Output :=
  match ev with
  | SocketConnect sid =>
      match sockets st !! sid with
      | Some SockOpening => (on_connect (set_sockets (<[sid := SockConnected]> (sockets st)) st), [])
      | _ => (st, [])
      end
  | SocketConnectError sid =>
      match sockets st !! sid with
      | Some SockOpening => (set_sockets (<[sid := SockClosed]> (sockets st)) st, [])
      | _ => (st, [])
      end
  | SocketDisconnect sid =>
      match sockets st !! sid with
      | Some SockConnected => (on_disconnect (set_sockets (<[sid := SockClosed]> (sockets st)) st), [])
      | _ => (st, [])
      end
  | SocketErrorEvent sid => (st, [])
  | TunnelRequestEvent sid ack req =>
      match sockets st !! sid with
      | Some SockConnected => (st, on_tunnel_request sid ack req)
      | _ => (st, [])
      end
  | HeartbeatAck sid => (st, [])
  | TimerFires tid =>
      match timers st !! tid with
      | Some t => on_timer tid t st
      | None => (st, [])
      end
  end.

Fixpoint run (st : State) (evs : list Event) : State * list Output :=
  match evs with
  | [] => (st, [])
  | ev :: evs =>
      let '(st1, out1) := step st ev in
      let '(st2, out2) := run st1 evs in
      (st2, out1 ++ out2)
  end.

(** *** Vocabulary for the properties *)

(** Every reconnect timer that is armed is the one [this.reconnectTimeout]
    holds and runs for [reconnectInterval]; handles not yet given out are
    not armed. *)
Record inv (st : State) : Prop := {
  inv_reconnect : ∀ tid t, timers st !! tid = Some t → kind t = ReconnectOnce →
                  reconnectTimeout st = Some tid ∧ delay t = reconnectInterval config;
  inv_unarmed : ∀ tid, (next_timer st ≤ tid)%nat → timers st !! tid = None
}.

(** No socket is opening or connected and no reconnect timer is armed. *)
Definition stuck (st : State) : Prop :=
  (∀ sid s, sockets st !! sid = Some s → s = SockClosed) ∧
  (∀ tid t, timers st !! tid = Some t → kind t = HeartbeatTick).

(** *** Further vocabulary *)

(** The heartbeat intervals that are armed. *)
Definition heartbeat_timers (st : State) : gmap nat Timer :=
  filter (fun kt => kind kt.2 = HeartbeatTick) (timers st).

(** How sockets, handles and timers hang together in every state the agent
    can be in: only [this.socket] can be open; a reconnect timer is armed
    only while every socket is closed; every armed heartbeat interval is the
    one [this.heartbeatInterval] holds; what [this.reconnectTimeout] holds
    is, if armed, a reconnect timer, and a handle that was given out; and
    while a socket is open the heartbeat interval is armed. *)
Record wired (st : State) : Prop := {
  wired_current : ∀ sid s, sockets st !! sid = Some s → s ≠ SockClosed → socket st = Some sid;
  wired_reconnect : ∀ tid t sid s, timers st !! tid = Some t → kind t = ReconnectOnce →
                    sockets st !! sid = Some s → s = SockClosed;
  wired_heartbeat : ∀ tid t, timers st !! tid = Some t → kind t = HeartbeatTick →
                    heartbeatHandle st = Some tid ∧ delay t = heartbeatInterval config;
  wired_handle : ∀ h t, reconnectTimeout st = Some h → timers st !! h = Some t →
                 kind t = ReconnectOnce;
  wired_bound : ∀ h, reconnectTimeout st = Some h → (h < next_timer st)%nat;
  wired_alive : ∀ sid s, sockets st !! sid = Some s → s ≠ SockClosed →
                ∃ tid t, heartbeatHandle st = Some tid ∧ timers st !! tid = Some t ∧
                         kind t = HeartbeatTick
}.

End Agent.

End Client.

(** ** Sample data *)

Module Samples.

Definition env0 : Server.Env := {| Server.JWT_SECRET := None |}.

Definition token0 : option Server.Token := Some (Server.generateToken env0 "agent-1" 0).
Definition token1 : option Server.Token := Some (Server.generateToken env0 "agent-2" 0).

Definition get_status : TunnelRequest :=
  {| method := "GET"; path := "/status"; headers := [("accept", "*/*")]; body := JUndefined |}.

Definition post_item : TunnelRequest :=
  {| method := "POST"; path := "/items"; headers := [];
     body := JObject [("name", JString "x")] |}.

Definition ok_response : TunnelResponse :=
  {| statusCode := 200;
     res_headers := [("content-type", "application/json"); ("x-served-by", "local")];
     res_body := JObject [("ok", JBool true)] |}.

(** The configuration the constructor builds from an empty environment. *)
Definition config0 : Client.TunnelConfig :=
  {| Client.serverUrl := "http://localhost:3000";
     Client.authToken := EmptyString;
     Client.localPort := 3300;
     Client.localHost := "localhost";
     Client.heartbeatInterval := 30000;
     Client.requestTimeout := 30000;
     Client.reconnectInterval := 5000 |}.

(** A local service that answers every call with [ok_response]. *)
Definition axios_ok (_ : Client.AxiosRequest) : Client.AxiosResult :=
  Client.AxiosResponse 200
    [("content-type", "application/json"); ("x-served-by", "local")]
    (JObject [("ok", JBool true)]).

(** No local service behind the port. *)
Definition axios_refused (_ : Client.AxiosRequest) : Client.AxiosResult :=
  Client.AxiosError "ECONNREFUSED" "connect ECONNREFUSED 127.0.0.1:3300".

(** A local service that does not answer before [requestTimeout]. *)
Definition axios_slow (_ : Client.AxiosRequest) : Client.AxiosResult :=
  Client.AxiosError "ECONNABORTED" "timeout of 30000ms exceeded".

End Samples.

(** ** Configuration read at start-up *)

From Stdlib Require Import Ascii.

Module Bootstrap.

(** [s.split(sep)] for a one-character separator. *)
Fixpoint split (sep : ascii) (s : string) : list string :=
  match s with
  | EmptyString => [EmptyString]
  | String c rest =>
      if decide (c = sep) then EmptyString :: split sep rest
      else match split sep rest with
           | piece :: pieces => String c piece :: pieces
           | [] => [String c EmptyString]
           end
  end.

(** [pieces.join(sep)] *)
Fixpoint join (sep : ascii) (pieces : list string) : string :=
  match pieces with
  | [] => EmptyString
  | [piece] => piece
  | piece :: rest => piece +:+ String sep (join sep rest)
  end.

(** How often [c] occurs in [s]. *)
Fixpoint occurrences (c : ascii) (s : string) : nat :=
  match s with
  | EmptyString => 0
  | String c' rest => (if decide (c' = c) then 1 else 0) + occurrences c rest
  end.

(** [process.env.ALLOWED_ORIGINS?.split(',') || ['*']], the [origin] option
    of both CORS configurations; an array is truthy even when it is empty
    or holds the empty string. *)
Definition allowed_origins (ALLOWED_ORIGINS : option string) : list string :=
  match ALLOWED_ORIGINS with
  | Some s => split ","%char s
  | None => ["*"]
  end.

End Bootstrap.

(** * Properties of the relay *)

Module ServerFacts.
Import Server Samples.

#[local] Set Warnings "-clear-no-such-hyp".

Lemma inv_init : inv init.
Proof.
  split; simpl; [done | done | intros; apply lookup_empty |].
  intros rid r Hr. by rewrite lookup_empty in Hr.
Qed.

Lemma run_snoc env st evs ev :
  run env st (evs ++ [ev]) =
  let '(st1, out1) := run env st evs in
  let '(st2, out2) := step env st1 ev in
  (st2, out1 ++ out2).
Proof.
  revert st. induction evs as [|e evs IH]; intros st; simpl.
  - destruct (step env st ev) as [st2 out2]. by rewrite app_nil_r.
  - destruct (step env st e) as [st1 out1]. rewrite IH.
    destruct (run env st1 evs) as [st2 out2].
    destruct (step env st2 ev) as [st3 out3]. by rewrite app_assoc.
Qed.

(** A request that is in the table keeps its number out of reach of new ones. *)
Lemma inv_known st rid r : inv st → requests st !! rid = Some r → (rid < next_request st)%nat.
Proof.
  intros Hi Hr. destruct (decide (rid < next_request st)%nat) as [|Hge]; [done|].
  rewrite (inv_fresh st Hi rid) in Hr; [done | lia].
Qed.

(** Replacing the entry of a known request keeps the invariant as long as a
    pending entry still has its callback and its timer. *)
Lemma inv_update st rid r r' :
  inv st → requests st !! rid = Some r →
  (rq_promise r' = Pending → rq_ack r' = true ∧ is_Some (rq_timer r')) →
  inv (set_requests (<[rid := r']> (requests st)) st).
Proof.
  intros Hi Hr Hnew. pose proof (inv_known st rid r Hi Hr) as Hlt.
  destruct Hi as [Hl Hs Hf Hp]. split; simpl; [done | done | |].
  - intros rid' Hle. rewrite lookup_insert_ne; [by apply Hf | lia].
  - intros rid' r''. rewrite lookup_insert.
    destruct (decide (rid = rid')) as [->|Hne]; [|apply Hp].
    intros [= <-]. apply Hnew.
Qed.

Lemma on_ack_inv st rid r response :
  inv st → requests st !! rid = Some r → inv (on_ack rid r response st).1.
Proof.
  intros Hi Hr. unfold on_ack.
  destruct (rq_promise r) eqn:Hpr; simpl; by eapply inv_update.
Qed.

Lemma on_timeout_inv st rid r :
  inv st → requests st !! rid = Some r → inv (on_timeout rid r st).1.
Proof.
  intros Hi Hr. unfold on_timeout.
  destruct (rq_promise r) eqn:Hpr; simpl; by eapply inv_update.
Qed.

Lemma step_inv env st ev : inv st → inv (step env st ev).1.
Proof.
  intros Hi. pose proof Hi as [Hl Hs Hf Hp].
  destruct ev as [dt|tok|sid|sid resp|sid|sid|req|sid rid resp|rid]; simpl.
  - split; done.
  - destruct (auth_middleware _ _ _).
    2: { split; simpl; [done | | done | done]. intros c Hc. specialize (Hs c Hc). lia. }
    unfold on_connection; simpl. destruct (activeClient st) eqn:Ha; simpl.
    + split; simpl; [by rewrite Ha | | done | done].
      rewrite Ha. intros c' Hc'. specialize (Hs c' Hc'). lia.
    + split; simpl; [rewrite Hl; set_solver | | done | done].
      intros c' [= <-]. simpl. lia.
  - destruct (decide (sid ∈ listening st)) as [Hin|Hnin]; [|done].
    unfold on_heartbeat.
    destruct (activeClient st) eqn:Ha; simpl; [|done].
    split; simpl; [done | | done | done].
    intros c' [= <-]. simpl. by apply Hs.
  - split; done.
  - destruct (decide (sid ∈ listening st)) as [Hin|Hnin]; [|done].
    unfold on_disconnect; simpl. rewrite Hl in Hin |- *.
    destruct (activeClient st) as [c|] eqn:Ha; simpl; [|set_solver].
    destruct (decide (socket_id (socket c) = sid)) as [Heq|Hne]; simpl; [|set_solver].
    split; simpl; [set_solver | done | done | done].
  - split; done.
  - unfold on_request. destruct (activeClient st) as [c|] eqn:Ha; simpl.
    + split; simpl.
      * by rewrite Ha.
      * by rewrite Ha.
      * intros rid Hr. rewrite lookup_insert_ne; [apply Hf|]; lia.
      * intros rid r. rewrite lookup_insert.
        destruct (decide (next_request st = rid)) as [Heq|Hne]; [|apply Hp].
        intros [= <-] _. simpl. eauto.
    + split; simpl; [by rewrite Ha | by rewrite Ha | intros; apply Hf; lia | done].
  - destruct (requests st !! rid) as [r|] eqn:Hr; [|done].
    destruct (decide _) as [Hok|Hno]; [|done]. by apply on_ack_inv.
  - destruct (requests st !! rid) as [r|] eqn:Hr; [|done].
    destruct (rq_timer r) as [due|] eqn:Ht; [|done].
    destruct (decide _) as [Hok|Hno]; [|done]. by apply on_timeout_inv.
Qed.

Lemma run_inv env evs st : inv st → inv (run env st evs).1.
Proof.
  revert st. induction evs as [|ev evs IH]; intros st Hi; simpl; [done|].
  pose proof (step_inv env st ev Hi) as H1.
  destruct (step env st ev) as [st1 out1]. specialize (IH st1 H1).
  by destruct (run env st1 evs).
Qed.

Lemma reachable_inv env evs : inv (run env init evs).1.
Proof. apply run_inv, inv_init. Qed.

(** The handlers of a socket that is not the attached one are not running. *)
Lemma not_attached_not_listening st sid :
  inv st →
  (∀ c, activeClient st = Some c → socket_id (socket c) ≠ sid) →
  sid ∉ listening st.
Proof.
  intros Hi Hne. rewrite (inv_listening st Hi).
  destruct (activeClient st) as [c|]; [|set_solver].
  specialize (Hne c eq_refl). set_solver.
Qed.

Lemma attached_listening st c :
  inv st → activeClient st = Some c → listening st = {[socket_id (socket c)]}.
Proof. intros Hi Ha. rewrite (inv_listening st Hi). by rewrite Ha. Qed.

(** C1. At most one agent is attached at any time.  After any sequence of
    events, at most one socket carries the session handlers; a connect
    attempt that passed authentication is accepted when [activeClient] is
    null, and then becomes the session; while a session exists it is
    rejected with the error 'Another client is already connected', the new
    socket is disconnected at once, and the session, the requests in flight
    and the sockets that are listened to stay as they were. *)
Theorem attach_exclusive env evs token cid :
  let st := (run env init evs).1 in
  let sid := next_socket st in
  auth_middleware env (Z.of_N (now st) / 1000) token = Accept cid →
  (size (listening st) ≤ 1)%nat ∧
  (activeClient st = None →
   step env st (Connect token) =
     (set_listening {[sid]}
        (set_activeClient
           (Some {| socket := {| socket_id := sid; data_clientId := cid |};
                    authenticated := true;
                    lastHeartbeat := now st |})
           (set_next_socket (S sid) st)),
      [])) ∧
  (∀ c, activeClient st = Some c →
   let st' := (step env st (Connect token)).1 in
   (step env st (Connect token)).2 =
     [EmitError sid "Another client is already connected"; SocketDisconnect sid] ∧
   st' = set_next_socket (S sid) st ∧
   activeClient st' = Some c ∧
   requests st' = requests st ∧
   listening st' = listening st ∧
   sid ∉ listening st').
Proof.
  intros st sid Hauth. pose proof (reachable_inv env evs) as Hi. fold st in Hi.
  split; [|split].
  - rewrite (inv_listening st Hi). destruct (activeClient st).
    + rewrite size_singleton. lia.
    + rewrite size_empty. lia.
  - intros Ha. simpl. rewrite Hauth. unfold on_connection. simpl. rewrite Ha.
    rewrite (inv_listening st Hi), Ha. by rewrite (right_id_L ∅ (∪)).
  - intros c Ha. simpl. rewrite Hauth. unfold on_connection. simpl. rewrite Ha. simpl.
    split; [done|]. split; [done|]. split; [done|]. split; [done|]. split; [done|].
    pose proof (inv_socket st Hi c Ha) as Hlt.
    rewrite (inv_listening st Hi), Ha. fold sid in Hlt. set_solver by lia.
Qed.

Lemma attach_exclusive_witness :
  auth_middleware env0 0 token1 = Accept "agent-2" ∧
  (step env0 (run env0 init [Connect token0]).1 (Connect token1)).2 =
    [EmitError 1 "Another client is already connected"; SocketDisconnect 1] ∧
  activeClient (step env0 (run env0 init [Connect token0]).1 (Connect token1)).1 =
    activeClient (run env0 init [Connect token0]).1.
Proof.
  split; [reflexivity|].
  pose proof (attach_exclusive env0 [Connect token0] token1 "agent-2" eq_refl) as H.
  destruct H as (_ & _ & H).
  destruct (H {| socket := {| socket_id := 0; data_clientId := "agent-1" |};
                 authenticated := true; lastHeartbeat := 0 |} eq_refl)
    as (Hout & _ & Hact & _).
  split; [exact Hout | exact Hact].
Defined.

(** C4. A keepalive on a connection that is not the attached session's
    connection changes nothing: after any sequence of events, a ['heartbeat']
    on a socket other than the one in [activeClient] (or while there is no
    session) leaves the whole state as it is and emits nothing; a
    ['heartbeat'] on the attached socket sets [lastHeartbeat] to the current
    time, changes nothing else and is acknowledged. *)
Theorem heartbeat_stale_noop env evs sid :
  let st := (run env init evs).1 in
  ((∀ c, activeClient st = Some c → socket_id (socket c) ≠ sid) →
   step env st (Heartbeat sid) = (st, [])) ∧
  (∀ c, activeClient st = Some c → socket_id (socket c) = sid →
   step env st (Heartbeat sid) =
     (set_activeClient (Some (set_lastHeartbeat (now st) c)) st, [EmitHeartbeatAck sid])).
Proof.
  intros st. pose proof (reachable_inv env evs) as Hi. fold st in Hi. split.
  - intros Hne. simpl.
    destruct (decide (sid ∈ listening st)) as [Hin|Hnin]; [|done].
    by apply not_attached_not_listening in Hne.
  - intros c Ha <-. simpl.
    destruct (decide (socket_id (socket c) ∈ listening st)) as [Hin|Hnin].
    + unfold on_heartbeat. by rewrite Ha.
    + rewrite (attached_listening st c Hi Ha) in Hnin. set_solver.
Qed.

Lemma heartbeat_stale_noop_witness :
  let st := (run env0 init [Connect token0; Connect token1; Advance 7]).1 in
  step env0 st (Heartbeat 1) = (st, []) ∧
  (lastHeartbeat <$> activeClient (step env0 st (Heartbeat 1)).1) = Some 0%N ∧
  (lastHeartbeat <$> activeClient (step env0 st (Heartbeat 0)).1) = Some 7%N.
Proof.
  intros st.
  pose proof (heartbeat_stale_noop env0 [Connect token0; Connect token1; Advance 7] 1) as [H1 _].
  pose proof (heartbeat_stale_noop env0 [Connect token0; Connect token1; Advance 7] 0) as [_ H0].
  assert (step env0 st (Heartbeat 1) = (st, [])) as E1.
  { apply H1. intros c [= <-]. simpl. lia. }
  split; [exact E1|]. split.
  - rewrite E1. reflexivity.
  - subst st. rewrite (H0 _ eq_refl eq_refl). reflexivity.
Defined.

(** C7. A public request that arrives while no agent is attached is answered
    at once with 503 [{ error: 'Tunnel client not connected' }]: nothing is
    emitted on any socket, no timer is armed and no request is left waiting. *)
Theorem no_session_fast_fail env st req :
  activeClient st = None →
  step env st (HttpRequest req) =
    (set_next_request (S (next_request st)) st,
     [ResJson (next_request st) SERVICE_UNAVAILABLE
        (error_body "Tunnel client not connected")]) ∧
  requests (step env st (HttpRequest req)).1 = requests st ∧
  pending (step env st (HttpRequest req)).1 = pending st.
Proof.
  intros Ha. simpl. unfold on_request. rewrite Ha. done.
Qed.

Lemma no_session_fast_fail_witness :
  activeClient init = None ∧
  (step env0 init (HttpRequest get_status)).2 =
    [ResJson 0 503 (error_body "Tunnel client not connected")] ∧
  pending (step env0 init (HttpRequest get_status)).1 = pending init.
Proof.
  split; [reflexivity|].
  destruct (no_session_fast_fail env0 init get_status eq_refl) as (Hs & _ & Hp).
  split; [by rewrite Hs | exact Hp].
Defined.

(** C2 as the relay does it.  When the socket of the attached agent
    disconnects, [activeClient] becomes null and the socket is no longer
    listened to; nothing is written to any caller, and every request stays
    in the table as it was: those that were pending stay pending, each with
    its own timer still armed. *)
Theorem disconnect_detaches_only env evs c :
  let st := (run env init evs).1 in
  activeClient st = Some c →
  step env st (Disconnect (socket_id (socket c))) =
    (set_activeClient None (set_listening ∅ st), []) ∧
  requests (step env st (Disconnect (socket_id (socket c)))).1 = requests st ∧
  pending (step env st (Disconnect (socket_id (socket c)))).1 = pending st ∧
  (∀ rid r, requests st !! rid = Some r → rq_promise r = Pending →
            is_Some (rq_timer r)).
Proof.
  intros st Ha. pose proof (reachable_inv env evs) as Hi. fold st in Hi.
  assert (step env st (Disconnect (socket_id (socket c))) =
          (set_activeClient None (set_listening ∅ st), [])) as Hstep.
  { simpl. rewrite (attached_listening st c Hi Ha).
    destruct (decide _) as [Hin|Hnin]; [|set_solver].
    unfold on_disconnect. simpl. rewrite Ha.
    destruct (decide _) as [Heq|Hne]; [|done].
    by rewrite (difference_diag_L _). }
  split; [exact Hstep|]. rewrite Hstep. simpl.
  split; [done|]. split; [done|].
  intros rid r Hr Hp. by destruct (inv_pending st Hi rid r Hr Hp).
Qed.

Lemma disconnect_detaches_only_witness :
  let st := (run env0 init [Connect token0; HttpRequest get_status]).1 in
  (socket_id ∘ socket <$> activeClient st) = Some 0%nat ∧
  (step env0 st (Disconnect 0)).2 = [] ∧
  pending (step env0 st (Disconnect 0)).1 = pending st.
Proof.
  intros st. split; [reflexivity|].
  destruct (disconnect_detaches_only env0 [Connect token0; HttpRequest get_status]
              {| socket := {| socket_id := 0; data_clientId := "agent-1" |};
                 authenticated := true; lastHeartbeat := 0 |} eq_refl)
    as (Hs & _ & Hp & _).
  cbn [socket_id socket] in Hs, Hp. subst st.
  split; [by rewrite Hs | exact Hp].
Defined.

(** C2 as stated fails: with two requests pending, the disconnect of the
    agent writes nothing to either caller and both requests are still
    pending afterwards. *)
Lemma disconnect_leaves_requests_pending :
  let st := (run env0 init [Connect token0; HttpRequest get_status; HttpRequest post_item]).1 in
  pending st = {[0%nat; 1%nat]} ∧
  (step env0 st (Disconnect 0)).2 = [] ∧
  activeClient (step env0 st (Disconnect 0)).1 = None ∧
  pending (step env0 st (Disconnect 0)).1 = {[0%nat; 1%nat]} ∧
  pending (step env0 st (Disconnect 0)).1 ≠ ∅.
Proof.
  intros st. subst st.
  split; [by vm_compute|]. split; [by vm_compute|]. split; [by vm_compute|].
  split; [by vm_compute|]. by vm_compute.
Qed.


Lemma elem_of_pending st rid :
  rid ∈ pending st ↔ ∃ r, requests st !! rid = Some r ∧ rq_promise r = Pending.
Proof.
  unfold pending. rewrite elem_of_dom. unfold is_Some.
  split.
  - intros [r Hr]. apply map_lookup_filter_Some in Hr as [Hr Hp]. simpl in Hp.
    exists r. split; [done|]. by destruct (rq_promise r).
  - intros (r & Hr & Hp). exists r. apply map_lookup_filter_Some. split; [done|].
    simpl. by rewrite Hp.
Qed.

Lemma pending_update st st' k r' rid :
  requests st' = <[k := r']> (requests st) →
  rid ∈ pending st' ↔
  (rid = k ∧ rq_promise r' = Pending) ∨ (rid ≠ k ∧ rid ∈ pending st).
Proof.
  intros Hst'. rewrite !elem_of_pending. rewrite Hst'. split.
  - intros (r & Hr & Hp). rewrite lookup_insert in Hr.
    destruct (decide (k = rid)) as [->|Hne].
    + injection Hr as <-. by left.
    + right. split; [done|]. eauto.
  - intros [[-> Hp]|[Hne (r & Hr & Hp)]].
    + exists r'. by rewrite lookup_insert_eq.
    + exists r. by rewrite lookup_insert_ne.
Qed.

Lemma replies_app rid o1 o2 : replies rid (o1 ++ o2) = replies rid o1 ++ replies rid o2.
Proof. unfold replies. apply List.filter_app. Qed.

Lemma replies_headers rid rid0 (hs : Headers) :
  replies rid (map (fun kv => ResSetHeader rid0 kv.1 kv.2) hs) = [].
Proof. induction hs as [|kv hs IH]; [done|]. simpl. exact IH. Qed.

Lemma replies_other_catch rid rid0 st : rid ≠ rid0 → replies rid (catch_block rid0 st) = [].
Proof.
  intros Hne. unfold catch_block. destruct (activeClient st); [|done].
  simpl. rewrite bool_decide_eq_false_2; done.
Qed.

Lemma replies_other_after rid rid0 response st :
  rid ≠ rid0 → replies rid (after_await rid0 response st) = [].
Proof.
  intros Hne. unfold after_await. destruct (activeClient st) eqn:Ha.
  - rewrite replies_app, replies_headers. simpl. rewrite bool_decide_eq_false_2; done.
  - by apply replies_other_catch.
Qed.

Lemma replies_catch_length rid rid0 st : (length (replies rid (catch_block rid0 st)) ≤ 1)%nat.
Proof.
  unfold catch_block. destruct (activeClient st); simpl; [|lia].
  destruct (bool_decide _); simpl; lia.
Qed.

Lemma replies_after_length rid rid0 response st :
  (length (replies rid (after_await rid0 response st)) ≤ 1)%nat.
Proof.
  unfold after_await. destruct (activeClient st) eqn:Ha.
  - rewrite replies_app, replies_headers. simpl. destruct (bool_decide _); simpl; lia.
  - apply replies_catch_length.
Qed.

Lemma writes_once_silent rid st : writes_once rid st st [].
Proof. split; [by left | done]. Qed.

Lemma step_writes_once env st ev rid :
  inv st → writes_once rid st (step env st ev).1 (step env st ev).2.
Proof.
  intros Hi.
  destruct ev as [dt|tok|sid|sid resp|sid|sid|req|sid rid0 resp|rid0]; simpl.
  - split; [by left | done].
  - destruct (auth_middleware _ _ _); [|split; [by left | done]].
    unfold on_connection; simpl. destruct (activeClient st); split; try (by left); done.
  - destruct (decide _); [|apply writes_once_silent].
    unfold on_heartbeat. destruct (activeClient st); split; try (by left); done.
  - apply writes_once_silent.
  - destruct (decide _); [|apply writes_once_silent].
    unfold on_disconnect; simpl. destruct (activeClient st); [|split; try (by left); done].
    destruct (decide _); split; try (by left); done.
  - apply writes_once_silent.
  - unfold on_request. destruct (activeClient st) as [c|]; simpl.
    + split; [by left|]. rewrite (pending_update st) by reflexivity. simpl.
      intros [Hle|[[-> _]|[_ Hp]]]; [left; lia | left; lia | by right].
    + split.
      * destruct (decide (rid = next_request st)) as [->|Hne].
        -- right. simpl. rewrite bool_decide_eq_true_2 by done. simpl.
           split; [lia|]. split; [left; lia|].
           intros [Hle|Hp]; [lia|].
           apply elem_of_pending in Hp as (r & Hr & _). simpl in Hr.
           rewrite (inv_fresh st Hi) in Hr; [done | lia].
        -- left. simpl. rewrite bool_decide_eq_false_2; done.
      * simpl. intros [Hle|Hp]; [left; lia | by right].
  - destruct (requests st !! rid0) as [r|] eqn:Hr; [|apply writes_once_silent].
    destruct (decide _) as [Hok|Hno]; [|apply writes_once_silent].
    pose proof (inv_known st rid0 r Hi Hr) as Hlt.
    unfold on_ack. destruct (rq_promise r) eqn:Hpr; simpl.
    + split.
      * destruct (decide (rid = rid0)) as [->|Hne].
        -- right. split; [apply replies_after_length|].
           split; [right; apply elem_of_pending; eauto|].
           rewrite (pending_update st) by reflexivity. simpl. intros [Hle|[[_ Hp]|[Hp _]]]; [lia | done | done].
        -- left. by apply replies_other_after.
      * rewrite (pending_update st) by reflexivity. simpl.
        intros [Hle|[[_ Hp]|[_ Hp]]]; [by left | done | by right].
    + split; [by left|]. rewrite (pending_update st) by reflexivity. simpl.
      intros [Hle|[[_ Hp]|[_ Hp]]]; [by left | done | by right].
    + split; [by left|]. rewrite (pending_update st) by reflexivity. simpl.
      intros [Hle|[[_ Hp]|[_ Hp]]]; [by left | done | by right].
  - destruct (requests st !! rid0) as [r|] eqn:Hr; [|apply writes_once_silent].
    destruct (rq_timer r) as [due|] eqn:Ht; [|apply writes_once_silent].
    destruct (decide _) as [Hok|Hno]; [|apply writes_once_silent].
    pose proof (inv_known st rid0 r Hi Hr) as Hlt.
    unfold on_timeout. destruct (rq_promise r) eqn:Hpr; simpl.
    + split.
      * destruct (decide (rid = rid0)) as [->|Hne].
        -- right. split; [apply replies_catch_length|].
           split; [right; apply elem_of_pending; eauto|].
           rewrite (pending_update st) by reflexivity. simpl. intros [Hle|[[_ Hp]|[Hp _]]]; [lia | done | done].
        -- left. by apply replies_other_catch.
      * rewrite (pending_update st) by reflexivity. simpl.
        intros [Hle|[[_ Hp]|[_ Hp]]]; [by left | done | by right].
    + split; [by left|]. rewrite (pending_update st) by reflexivity. simpl.
      intros [Hle|[[_ Hp]|[_ Hp]]]; [by left | done | by right].
    + split; [by left|]. rewrite (pending_update st) by reflexivity. simpl.
      intros [Hle|[[_ Hp]|[_ Hp]]]; [by left | done | by right].
Qed.

Lemma run_writes_once env evs rid :
  let st := (run env init evs).1 in
  let outs := (run env init evs).2 in
  (length (replies rid outs) ≤ 1)%nat ∧
  (((next_request st ≤ rid)%nat ∨ rid ∈ pending st) → replies rid outs = []).
Proof.
  induction evs as [|ev evs IH] using rev_ind; simpl; [split; [lia | done]|].
  rewrite run_snoc. pose proof (reachable_inv env evs) as Hi.
  destruct (run env init evs) as [st outs]. simpl in *.
  pose proof (step_writes_once env st ev rid Hi) as [Hw1 Hw2].
  destruct (step env st ev) as [st' out]. simpl in *.
  destruct IH as [IH1 IH2]. rewrite replies_app, length_app. split.
  - destruct Hw1 as [->|(Hlen & Hbefore & _)]; [simpl; lia|].
    rewrite (IH2 Hbefore). simpl. lia.
  - intros Hafter. rewrite (IH2 (Hw2 Hafter)). simpl.
    destruct Hw1 as [->|(_ & _ & Hnot)]; [done | done].
Qed.

Lemma evolves_refl r : evolves r r.
Proof. split; done. Qed.

Lemma evolves_trans r1 r2 r3 : evolves r1 r2 → evolves r2 r3 → evolves r1 r3.
Proof.
  intros [Ha Hb] [Hc Hd]. split.
  - intros Hp. rewrite (Hc Hp) in Hp |- *. by apply Ha.
  - intros Hn. rewrite Hd; [by apply Hb|]. by rewrite (Hb Hn).
Qed.

Lemma step_evolves env st ev rid r :
  inv st → requests st !! rid = Some r →
  ∃ r', requests (step env st ev).1 !! rid = Some r' ∧ evolves r r'.
Proof.
  intros Hi Hr. pose proof (inv_known st rid r Hi Hr) as Hlt.
  assert (∃ r', requests st !! rid = Some r' ∧ evolves r r') as Hsame.
  { exists r. split; [done | apply evolves_refl]. }
  destruct ev as [dt|tok|sid|sid resp|sid|sid|req|sid rid0 resp|rid0]; simpl; try done.
  - destruct (auth_middleware _ _ _); [|done].
    unfold on_connection; simpl. by destruct (activeClient st).
  - destruct (decide _); [|done]. unfold on_heartbeat. by destruct (activeClient st).
  - destruct (decide _); [|done]. unfold on_disconnect; simpl.
    destruct (activeClient st); [|done]. by destruct (decide _).
  - unfold on_request. destruct (activeClient st); simpl; [|done].
    rewrite lookup_insert_ne; [done | lia].
  - destruct (requests st !! rid0) as [r0|] eqn:Hr0; [|done].
    destruct (decide _) as [Hok|Hno]; [|done].
    unfold on_ack. destruct (decide (rid0 = rid)) as [->|Hne].
    + assert (r0 = r) as -> by congruence.
      destruct (rq_promise r) eqn:Hpr; simpl; rewrite lookup_insert_eq;
        eexists; (split; [done|]); split; simpl; congruence.
    + destruct (rq_promise r0); simpl; by rewrite lookup_insert_ne.
  - destruct (requests st !! rid0) as [r0|] eqn:Hr0; [|done].
    destruct (rq_timer r0) as [due|] eqn:Ht; [|done].
    destruct (decide _) as [Hok|Hno]; [|done].
    unfold on_timeout. destruct (decide (rid0 = rid)) as [->|Hne].
    + assert (r0 = r) as -> by congruence.
      destruct (rq_promise r) eqn:Hpr; simpl; rewrite lookup_insert_eq;
        eexists; (split; [done|]); split; simpl; congruence.
    + destruct (rq_promise r0); simpl; by rewrite lookup_insert_ne.
Qed.

Lemma run_evolves env evs st rid r :
  inv st → requests st !! rid = Some r →
  ∃ r', requests (run env st evs).1 !! rid = Some r' ∧ evolves r r'.
Proof.
  revert st r. induction evs as [|ev evs IH]; intros st r Hi Hr; simpl.
  - exists r. split; [done | apply evolves_refl].
  - destruct (step_evolves env st ev rid r Hi Hr) as (r1 & Hr1 & He1).
    pose proof (step_inv env st ev Hi) as Hi1.
    destruct (step env st ev) as [st1 out1]. simpl in *.
    destruct (IH st1 r1 Hi1 Hr1) as (r2 & Hr2 & He2).
    destruct (run env st1 evs) as [st2 out2]. simpl in *.
    exists r2. split; [done|]. by eapply evolves_trans.
Qed.

(** C3 as the relay does it.  A request submitted at time [t] while an agent
    is attached gets a timer for [t + 30000].  As long as the request is
    pending, the timer does nothing before that time; once it fires, and a
    session is attached at that moment, the caller gets 500
    [{ error: 'Failed to process request' }], and the request is no longer
    pending. *)
Theorem timeout_replies_500 env evs0 req evs :
  let st := (run env init evs0).1 in
  let rid := next_request st in
  let st1 := (step env st (HttpRequest req)).1 in
  let st2 := (run env st1 evs).1 in
  is_Some (activeClient st) →
  rid ∈ pending st2 →
  is_Some (activeClient st2) →
  ((now st2 < now st + 30000)%N → step env st2 (RequestTimeout rid) = (st2, [])) ∧
  ((now st + 30000 ≤ now st2)%N →
   (step env st2 (RequestTimeout rid)).2 =
     [ResJson rid INTERNAL_SERVER_ERROR (error_body "Failed to process request")] ∧
   rid ∉ pending (step env st2 (RequestTimeout rid)).1).
Proof.
  intros st rid st1 st2 [c Ha] Hp [c2 Ha2].
  pose proof (reachable_inv env evs0) as Hi. fold st in Hi.
  pose proof (step_inv env st (HttpRequest req) Hi) as Hi1. fold st1 in Hi1.
  set (r := {| rq_socket := socket_id (socket c);
               rq_timer := Some (now st + 30000)%N;
               rq_ack := true; rq_promise := Pending |}).
  assert (requests st1 !! rid = Some r) as Hr1.
  { unfold st1. simpl. unfold on_request. rewrite Ha. simpl. apply lookup_insert_eq. }
  destruct (run_evolves env evs st1 rid r Hi1 Hr1) as (r2 & Hr2 & He2 & _).
  fold st2 in Hr2. apply elem_of_pending in Hp as (r2' & Hr2' & Hp2).
  assert (r2' = r2) as -> by congruence. rewrite (He2 Hp2) in Hr2. clear He2 Hr2' Hp2 r2.
  split.
  - intros Hlt. simpl. rewrite Hr2. simpl.
    destruct (decide _) as [Hle|Hgt]; [lia | done].
  - intros Hle. simpl. rewrite Hr2. simpl.
    destruct (decide _) as [Hle'|Hgt]; [|lia].
    unfold on_timeout. simpl. unfold catch_block. simpl. rewrite Ha2.
    split; [done|]. rewrite (pending_update st2) by reflexivity. simpl.
    intros [[_ Hp]|[Hne _]]; done.
Qed.

Lemma timeout_replies_500_witness :
  let st := (run env0 init [Connect token0]).1 in
  let st2 := (run env0 (step env0 st (HttpRequest get_status)).1 [Advance 30000]).1 in
  is_Some (activeClient st) ∧ 0%nat ∈ pending st2 ∧ is_Some (activeClient st2) ∧
  (step env0 st2 (RequestTimeout 0)).2 =
    [ResJson 0 500 (error_body "Failed to process request")].
Proof.
  intros st st2.
  assert (is_Some (activeClient st)) as H1 by (by eexists).
  assert (0%nat ∈ pending st2) as H2 by (by vm_compute).
  assert (is_Some (activeClient st2)) as H3 by (by eexists).
  split; [exact H1|]. split; [exact H2|]. split; [exact H3|].
  destruct (timeout_replies_500 env0 [Connect token0] get_status [Advance 30000] H1 H2 H3)
    as [_ H].
  apply H. vm_compute. discriminate.
Defined.

(** C3 as stated fails: with the agent attached throughout and silent, what
    the caller gets when the timer fires is the general 500 answer, not a
    gateway timeout. *)
Lemma timeout_reply_is_500_not_504 :
  let st := (run env0 init [Connect token0; HttpRequest get_status; Advance 30000]).1 in
  (step env0 st (RequestTimeout 0)).2 =
    [ResJson 0 INTERNAL_SERVER_ERROR (error_body "Failed to process request")] ∧
  replies 0 (run env0 init [Connect token0; HttpRequest get_status; Advance 30000; RequestTimeout 0]).2 =
    [ResJson 0 500 (error_body "Failed to process request")] ∧
  INTERNAL_SERVER_ERROR ≠ GATEWAY_TIMEOUT.
Proof. split; [by vm_compute|]. split; [by vm_compute | done]. Qed.

(** When the agent is gone by the time the timer fires, the [catch] block
    fails on [activeClient.socket] before it writes the answer: the caller
    gets nothing. *)
Lemma timeout_after_disconnect_unanswered :
  let tr := [Connect token0; HttpRequest get_status; Disconnect 0; Advance 30000; RequestTimeout 0] in
  (run env0 init tr).2 = [EmitTunnelRequest 0 0 get_status; Unhandled 0] ∧
  replies 0 (run env0 init tr).2 = [] ∧
  pending (run env0 init tr).1 = ∅.
Proof. split; [by vm_compute|]. split; by vm_compute. Qed.

(** C5 as the relay does it.  What settles a request is its acknowledgement
    or its timer, whichever comes first.  After any sequence of events, at
    most one answer has been written for a request, and none while it is
    pending; a pending request has its timer armed, the acknowledgement from
    its socket fulfils it and the timer, once due, rejects it; once it is
    settled, a later acknowledgement or timer for it writes nothing, leaves
    the promise and the session as they are; and an acknowledgement or a
    timer for a request that does not exist changes nothing at all. *)
Theorem settles_exactly_once env evs rid :
  let st := (run env init evs).1 in
  let outs := (run env init evs).2 in
  (length (replies rid outs) ≤ 1)%nat ∧
  (rid ∈ pending st → replies rid outs = []) ∧
  (∀ r, requests st !! rid = Some r → rq_promise r = Pending →
     is_Some (rq_timer r) ∧
     (∀ response, rq_socket r ∈ listening st →
        rq_promise <$> requests (step env st (Ack (rq_socket r) rid response)).1 !! rid
        = Some (Fulfilled response)) ∧
     (∀ due, rq_timer r = Some due → (due ≤ now st)%N →
        rq_promise <$> requests (step env st (RequestTimeout rid)).1 !! rid = Some Rejected)) ∧
  (∀ r ev, requests st !! rid = Some r → rq_promise r ≠ Pending → is_trigger rid ev →
     (step env st ev).2 = [] ∧
     rq_promise <$> requests (step env st ev).1 !! rid = Some (rq_promise r) ∧
     activeClient (step env st ev).1 = activeClient st) ∧
  (∀ ev, requests st !! rid = None → is_trigger rid ev → step env st ev = (st, [])).
Proof.
  intros st outs. pose proof (reachable_inv env evs) as Hi. fold st in Hi.
  destruct (run_writes_once env evs rid) as [Hlen Hnone]. fold st outs in Hlen, Hnone.
  split; [exact Hlen|]. split; [intros Hp; apply Hnone; by right|].
  split; [|split].
  - intros r Hr Hp. destruct (inv_pending st Hi rid r Hr Hp) as [Hack Htimer].
    split; [exact Htimer|]. split.
    + intros response Hin. simpl. rewrite Hr.
      destruct (decide _) as [Hok|Hno]; [|by destruct Hno].
      unfold on_ack. rewrite Hp. simpl. by rewrite lookup_insert_eq.
    + intros due Hdue Hle. simpl. rewrite Hr, Hdue.
      destruct (decide _) as [Hok|Hno]; [|done].
      unfold on_timeout. rewrite Hp. simpl. by rewrite lookup_insert_eq.
  - intros r ev Hr Hp Htr.
    destruct ev as [dt|tok|sid|sid resp|sid|sid|req|sid rid0 resp|rid0]; try done;
      simpl in Htr; subst rid0; simpl; rewrite Hr.
    + destruct (decide _) as [Hok|Hno]; [|simpl; by rewrite Hr].
      unfold on_ack. destruct (rq_promise r) eqn:Hpr; [done| |];
        simpl; by rewrite lookup_insert_eq.
    + destruct (rq_timer r) as [due|]; [|simpl; by rewrite Hr].
      destruct (decide _) as [Hok|Hno]; [|simpl; by rewrite Hr].
      unfold on_timeout. destruct (rq_promise r) eqn:Hpr; [done| |];
        simpl; by rewrite lookup_insert_eq.
  - intros ev Hr Htr.
    destruct ev as [dt|tok|sid|sid resp|sid|sid|req|sid rid0 resp|rid0]; try done;
      simpl in Htr; subst rid0; simpl; by rewrite Hr.
Qed.

Lemma settles_exactly_once_witness :
  let tr := [Connect token0; HttpRequest get_status; Advance 30000; RequestTimeout 0] in
  let st := (run env0 init tr).1 in
  (rq_promise <$> requests st !! 0%nat) = Some Rejected ∧
  is_trigger 0 (Ack 0 0 ok_response) ∧
  (step env0 st (Ack 0 0 ok_response)).2 = [] ∧
  (rq_promise <$> requests (step env0 st (Ack 0 0 ok_response)).1 !! 0%nat) = Some Rejected ∧
  (length (replies 0 (run env0 init (tr ++ [Ack 0 0 ok_response])).2) ≤ 1)%nat.
Proof.
  intros tr st.
  destruct (settles_exactly_once env0 tr 0) as (_ & _ & _ & Hlate & _).
  fold st in Hlate.
  assert (requests st !! 0%nat =
          Some {| rq_socket := 0; rq_timer := None; rq_ack := true; rq_promise := Rejected |})
    as Hr by (by vm_compute).
  destruct (Hlate _ (Ack 0 0 ok_response) Hr) as (Hout & Hprom & _); [done | done |].
  split; [by rewrite Hr|]. split; [done|]. split; [exact Hout|]. split; [exact Hprom|].
  apply (settles_exactly_once env0 (tr ++ [Ack 0 0 ok_response]) 0).
Defined.

(** C5 as stated fails: the loss of the session is no trigger.  With a
    request pending, the disconnect of the agent comes first and settles
    nothing; the request is settled later, by its timer. *)
Lemma session_loss_settles_nothing :
  let st := (run env0 init [Connect token0; HttpRequest get_status]).1 in
  let st' := (step env0 st (Disconnect 0)).1 in
  activeClient st' = None ∧
  (rq_promise <$> requests st !! 0%nat) = Some Pending ∧
  (rq_promise <$> requests st' !! 0%nat) = Some Pending ∧
  (step env0 st (Disconnect 0)).2 = [] ∧
  (rq_promise <$> requests (run env0 st' [Advance 30000; RequestTimeout 0]).1 !! 0%nat) = Some Rejected.
Proof. repeat split; by vm_compute. Qed.

(** C10. With [JWT_SECRET] unset the verifier checks signatures against the
    literal 'default-secret', the secret [generateToken] signs with in the
    same configuration; so it accepts every unexpired token of type
    'tunnel-client' with a client id that is signed with that constant, and
    in particular every token [generateToken] made less than 30 days ago. *)
Theorem default_secret_accepts env payload cid clock :
  JWT_SECRET env = None →
  clientId payload = Some cid → cid ≠ EmptyString →
  type payload = "tunnel-client" →
  (∀ e, exp payload = Some e → (clock < e)%Z) →
  secret env = "default-secret" ∧
  (∀ uuid t, generateToken env uuid t =
     Signed {| clientId := Some uuid; type := "tunnel-client"; iat := Some t;
               exp := Some (t + 2592000)%Z |} "default-secret") ∧
  auth_middleware env clock (Some (Signed payload "default-secret")) = Accept cid.
Proof.
  intros Henv Hcid Hne Hty Hexp.
  assert (secret env = "default-secret") as Hs by (unfold secret; by rewrite Henv).
  split; [exact Hs|]. split.
  - intros uuid t. unfold generateToken, jwt_sign. by rewrite Hs.
  - unfold auth_middleware, jwt_verify. rewrite Hs.
    destruct (decide _) as [_|Hno]; [|done].
    assert (falsy (clientId payload) || negb (bool_decide (type payload = "tunnel-client")) = false)
      as Hcheck.
    { unfold falsy. rewrite Hcid, Hty.
      rewrite (bool_decide_eq_false_2 (cid = EmptyString)) by done.
      by rewrite (bool_decide_eq_true_2 ("tunnel-client" = "tunnel-client")). }
    destruct (exp payload) as [e|] eqn:He.
    + specialize (Hexp e eq_refl).
      destruct (e <=? clock)%Z eqn:Hle; [lia|]. rewrite Hcheck. by rewrite Hcid.
    + rewrite Hcheck. by rewrite Hcid.
Qed.

Lemma default_secret_accepts_witness :
  JWT_SECRET env0 = None ∧
  auth_middleware env0 86400
    (Some (Signed {| clientId := Some "anyone"; type := "tunnel-client";
                     iat := Some 0%Z; exp := Some 2592000%Z |} "default-secret"))
  = Accept "anyone".
Proof.
  split; [reflexivity|].
  apply (default_secret_accepts env0
           {| clientId := Some "anyone"; type := "tunnel-client";
              iat := Some 0%Z; exp := Some 2592000%Z |} "anyone" 86400).
  - reflexivity.
  - reflexivity.
  - discriminate.
  - reflexivity.
  - intros e [= <-]. lia.
Defined.
End ServerFacts.

(** * Properties of the agent *)

Module ClientFacts.
Import Client Samples.

Section Agent.

Variable config : TunnelConfig.
Variable axios : AxiosRequest → AxiosResult.

Lemma stuck_step st ev : stuck st → step config axios st ev = (st, []).
Proof.
  intros [Hclosed Hbeat]. destruct ev as [sid|sid|sid|sid|sid ack req|sid|tid]; simpl; try done.
  - destruct (sockets st !! sid) as [s|] eqn:Hs; [|done]. by rewrite (Hclosed sid s Hs).
  - destruct (sockets st !! sid) as [s|] eqn:Hs; [|done]. by rewrite (Hclosed sid s Hs).
  - destruct (sockets st !! sid) as [s|] eqn:Hs; [|done]. by rewrite (Hclosed sid s Hs).
  - destruct (sockets st !! sid) as [s|] eqn:Hs; [|done]. by rewrite (Hclosed sid s Hs).
  - destruct (timers st !! tid) as [t|] eqn:Ht; [|done].
    unfold on_timer. rewrite (Hbeat tid t Ht). unfold connected.
    destruct (socket st) as [sid|]; [|done].
    destruct (sockets st !! sid) as [s|] eqn:Hs; [|done]. by rewrite (Hclosed sid s Hs).
Qed.

Lemma stuck_run st evs : stuck st → run config axios st evs = (st, []).
Proof.
  intros Hst. induction evs as [|ev evs IH]; simpl; [done|].
  rewrite (stuck_step st ev Hst). by rewrite IH.
Qed.

Lemma stuck_disconnected st : stuck st → connection_state st = Disconnected.
Proof.
  intros [Hclosed _]. unfold connection_state.
  destruct (socket st) as [sid|]; [|done].
  destruct (sockets st !! sid) as [s|] eqn:Hs; [|done]. by rewrite (Hclosed sid s Hs).
Qed.


(** *** Timers of the agent *)

Lemma inv_constructed : inv config constructed.
Proof. split; simpl; intros tid; [intros t|]; by rewrite ?lookup_empty. Qed.

Lemma clear_inv h st : inv config st → inv config (clear h st).
Proof.
  intros [Hr Hf]. split; simpl.
  - intros tid t. rewrite lookup_delete. destruct (decide (h = tid)); [done | apply Hr].
  - intros tid Hle. rewrite lookup_delete. destruct (decide (h = tid)); [done | by apply Hf].
Qed.

Lemma startHeartbeat_inv st : inv config st → inv config (startHeartbeat config st).
Proof.
  intros Hi. unfold startHeartbeat.
  set (st1 := match heartbeatHandle st with Some h => clear h st | None => st end).
  assert (inv config st1) as [Hr Hf].
  { unfold st1. destruct (heartbeatHandle st); [by apply clear_inv | done]. }
  split; simpl.
  - intros tid t. rewrite lookup_insert.
    destruct (decide (next_timer st1 = tid)); [by intros [= <-] | apply Hr].
  - intros tid Hle. rewrite lookup_insert_ne by lia. apply Hf. lia.
Qed.

Lemma stopHeartbeat_inv st : inv config st → inv config (stopHeartbeat st).
Proof.
  intros Hi. unfold stopHeartbeat. destruct (heartbeatHandle st) as [h|]; [|done].
  destruct (clear_inv h st Hi) as [Hr Hf]. split; done.
Qed.

Lemma connect_inv st : inv config st → inv config (connect config st).1.
Proof.
  intros Hi. unfold connect. destruct (connected st); [done|]. simpl.
  apply startHeartbeat_inv. destruct Hi as [Hr Hf]. split; done.
Qed.

(** Once the handle in [this.reconnectTimeout] is cleared no reconnect timer
    is armed. *)
Lemma cleared_no_reconnect st tid t :
  inv config st →
  timers (match reconnectTimeout st with Some h => clear h st | None => st end) !! tid = Some t →
  kind t = HeartbeatTick.
Proof.
  intros [Hr _] Ht. destruct (kind t) eqn:Hk; [done|]. exfalso.
  destruct (reconnectTimeout st) as [h|] eqn:Hh; simpl in Ht.
  - rewrite lookup_delete in Ht. destruct (decide (h = tid)) as [->|Hne]; [done|].
    destruct (Hr tid t Ht Hk) as [Heq _]. congruence.
  - by destruct (Hr tid t Ht Hk).
Qed.

Lemma scheduleReconnect_inv st : inv config st → inv config (scheduleReconnect config st).
Proof.
  intros Hi. unfold scheduleReconnect.
  pose proof (λ tid t, cleared_no_reconnect st tid t Hi) as Hnone.
  set (st1 := match reconnectTimeout st with Some h => clear h st | None => st end) in *.
  assert (inv config st1) as [Hr Hf].
  { unfold st1. destruct (reconnectTimeout st); [by apply clear_inv | done]. }
  split; simpl.
  - intros tid t. rewrite lookup_insert.
    destruct (decide (next_timer st1 = tid)) as [->|Hne]; [by intros [= <-]|].
    intros Ht Hk. by rewrite (Hnone tid t Ht) in Hk.
  - intros tid Hle. rewrite lookup_insert_ne by lia. apply Hf. lia.
Qed.

Lemma on_connect_inv st : inv config st → inv config (on_connect st).
Proof.
  intros Hi. pose proof (λ tid t, cleared_no_reconnect st tid t Hi) as Hnone.
  unfold on_connect. destruct (reconnectTimeout st) as [h|] eqn:Hh; [|done].
  destruct (clear_inv h st Hi) as [Hr Hf]. split; simpl; [|done].
  intros tid t Ht Hk. by rewrite (Hnone tid t Ht) in Hk.
Qed.

Lemma set_sockets_inv l st : inv config st → inv config (set_sockets l st).
Proof. intros [Hr Hf]. split; done. Qed.

Lemma agent_step_inv st ev : inv config st → inv config (step config axios st ev).1.
Proof.
  intros Hi. destruct ev as [sid|sid|sid|sid|sid ack req|sid|tid]; simpl; try done.
  - destruct (sockets st !! sid) as [[]|]; try done. simpl.
    by apply on_connect_inv, set_sockets_inv.
  - destruct (sockets st !! sid) as [[]|]; try done. simpl. by apply set_sockets_inv.
  - destruct (sockets st !! sid) as [[]|]; try done. simpl.
    by apply scheduleReconnect_inv, stopHeartbeat_inv, set_sockets_inv.
  - by destruct (sockets st !! sid) as [[]|].
  - destruct (timers st !! tid) as [t|]; [|done]. unfold on_timer.
    destruct (kind t).
    + by destruct (connected st).
    + by apply connect_inv, clear_inv.
Qed.

Lemma agent_run_inv st evs : inv config st → inv config (run config axios st evs).1.
Proof.
  revert st. induction evs as [|ev evs IH]; intros st Hi; simpl; [done|].
  pose proof (agent_step_inv st ev Hi) as H1.
  destruct (step config axios st ev) as [st1 out1]. specialize (IH st1 H1).
  by destruct (run config axios st1 evs).
Qed.

Lemma agent_reachable_inv evs : inv config (run config axios (start config).1 evs).1.
Proof. apply agent_run_inv, connect_inv, inv_constructed. Qed.

(** At most one reconnect timer is armed at any time, and it runs for the
    configured interval. *)
Lemma reconnect_timer_unique evs tid1 t1 tid2 t2 :
  let st := (run config axios (start config).1 evs).1 in
  reconnect_timers st !! tid1 = Some t1 →
  reconnect_timers st !! tid2 = Some t2 →
  tid1 = tid2 ∧ delay t1 = reconnectInterval config.
Proof.
  intros st H1 H2. destruct (agent_reachable_inv evs) as [Hr _]. fold st in Hr.
  apply map_lookup_filter_Some in H1 as [H1 K1].
  apply map_lookup_filter_Some in H2 as [H2 K2]. simpl in *.
  destruct (Hr tid1 t1 H1 K1) as [E1 D1]. destruct (Hr tid2 t2 H2 K2) as [E2 _].
  split; [congruence | done].
Qed.

(** Entering [Connected] cancels the reconnect timer. *)
Lemma connect_cancels_reconnect evs sid :
  let st := (run config axios (start config).1 evs).1 in
  sockets st !! sid = Some SockOpening →
  reconnect_timers (step config axios st (SocketConnect sid)).1 = ∅.
Proof.
  intros st Hs. pose proof (agent_reachable_inv evs) as Hi. fold st in Hi.
  simpl. rewrite Hs. simpl. apply map_empty. intros tid.
  apply map_lookup_filter_None. right. intros t Ht Hk. simpl in Hk.
  set (st1 := set_sockets (<[sid:=SockConnected]> (sockets st)) st) in *.
  assert (inv config st1) as Hi1 by by apply set_sockets_inv.
  pose proof (cleared_no_reconnect st1 tid t Hi1) as Hnone.
  unfold on_connect in Ht. destruct (reconnectTimeout st1); simpl in *;
    rewrite Hnone in Hk; done.
Qed.

(** A disconnect arms the reconnect timer. *)
Lemma disconnect_arms_reconnect evs sid :
  let st := (run config axios (start config).1 evs).1 in
  sockets st !! sid = Some SockConnected →
  ∃ tid, reconnect_timers (step config axios st (SocketDisconnect sid)).1 =
           {[ tid := {| kind := ReconnectOnce; delay := reconnectInterval config |} ]}.
Proof.
  intros st Hs. pose proof (agent_reachable_inv evs) as Hi. fold st in Hi.
  simpl. rewrite Hs. simpl. unfold on_disconnect, scheduleReconnect.
  set (st0 := stopHeartbeat (set_sockets (<[sid:=SockClosed]> (sockets st)) st)).
  assert (inv config st0) as Hi0 by by apply stopHeartbeat_inv, set_sockets_inv.
  pose proof (λ tid t, cleared_no_reconnect st0 tid t Hi0) as Hnone.
  set (st1 := match reconnectTimeout st0 with Some h => clear h st0 | None => st0 end) in *.
  exists (next_timer st1). simpl. unfold reconnect_timers. simpl.
  apply map_eq. intros tid. rewrite lookup_singleton.
  destruct (decide (next_timer st1 = tid)) as [->|Hne].
  - apply map_lookup_filter_Some. by rewrite lookup_insert_eq.
  - apply map_lookup_filter_None. right. intros t Ht Hk. simpl in Hk.
    rewrite lookup_insert_ne in Ht by done. by rewrite (Hnone tid t Ht) in Hk.
Qed.

(** *** The request forwarder *)

(** C8. For every [tunnel_request] the agent calls the callback exactly once:
    with the answer of the local service when there is one, and otherwise
    with a 500 answer without headers whose body names the error, 'Local
    service is not running' when the connection was refused.  The handler
    leaves the state of the agent as it is. *)
Theorem agent_always_answers sid ack req :
  ∃ response,
    on_tunnel_request config axios sid ack req = [Callback sid ack response] ∧
    (∀ status hs data,
       axios (axios_config config req) = AxiosResponse status hs data →
       response = {| statusCode := status; res_headers := hs; res_body := data |}) ∧
    (∀ code message,
       axios (axios_config config req) = AxiosError code message →
       response =
         {| statusCode := 500; res_headers := [];
            res_body := error_body (if decide (code = "ECONNREFUSED")
                                    then "Local service is not running"
                                    else message) |}) ∧
    (∀ st, sockets st !! sid = Some SockConnected →
       step config axios st (TunnelRequestEvent sid ack req) = (st, [Callback sid ack response])).
Proof.
  unfold on_tunnel_request, handleTunnelRequest.
  destruct (axios (axios_config config req)) as [status hs data|code message] eqn:Hax.
  - eexists. split; [done|]. split; [by intros ??? [= <- <- <-]|]. split; [done|].
    intros st Hs. simpl. rewrite Hs. unfold on_tunnel_request, handleTunnelRequest.
    by rewrite Hax.
  - destruct (decide (code = "ECONNREFUSED")) as [Hc|Hc].
    + eexists. split; [done|]. split; [done|]. split.
      * intros ?? [= <- <-]. by rewrite decide_True.
      * intros st Hs. simpl. rewrite Hs. unfold on_tunnel_request, handleTunnelRequest.
        rewrite Hax. by rewrite decide_True.
    + eexists. split; [done|]. split; [done|]. split.
      * intros ?? [= <- <-]. by rewrite decide_False.
      * intros st Hs. simpl. rewrite Hs. unfold on_tunnel_request, handleTunnelRequest.
        rewrite Hax. by rewrite decide_False.
Qed.

(** *** Reconnection *)

(** C9 on the code.  The agent connects, is disconnected (which arms the
    reconnect timer), the timer fires and a new socket is opened; when the
    handshake of that socket fails, the agent is back in [Disconnected]
    with no reconnect timer armed, and from there no event changes anything:
    it never tries again. *)
Theorem reconnect_lost_after_handshake_failure :
  let tr := [SocketConnect 0; SocketDisconnect 0; TimerFires 1] in
  let st := (run config axios (start config).1 tr).1 in
  let st' := (step config axios st (SocketConnectError 1)).1 in
  connection_state st = Connecting ∧
  connection_state st' = Disconnected ∧
  reconnect_timers st' = ∅ ∧
  (∀ evs, run config axios st' evs = (st', [])).
Proof.
  intros tr st st'.
  assert (sockets st' = [SockClosed; SockClosed]) as Hsocks by reflexivity.
  assert (timers st' = {[ 2%nat := {| kind := HeartbeatTick; delay := heartbeatInterval config |} ]})
    as Htimers by (by vm_compute).
  assert (stuck st') as Hstuck.
  { split.
    - intros sid s. rewrite Hsocks. intros Hs.
      destruct sid as [|[|sid]]; cbn in Hs; by simplify_eq.
    - intros tid t. rewrite Htimers. intros [_ <-]%lookup_singleton_Some. done. }
  split; [reflexivity|]. split; [by apply stuck_disconnected|]. split.
  - apply map_empty. intros tid. apply map_lookup_filter_None. right.
    intros t Ht Hk. simpl in Hk. destruct Hstuck as [_ Hbeat].
    by rewrite (Hbeat tid t Ht) in Hk.
  - intros evs. by apply stuck_run.
Qed.

End Agent.

Lemma agent_always_answers_witness :
  on_tunnel_request config0 axios_refused 0 5 get_status =
    [Callback 0 5 {| statusCode := 500; res_headers := [];
                     res_body := error_body "Local service is not running" |}] ∧
  on_tunnel_request config0 axios_slow 0 6 post_item =
    [Callback 0 6 {| statusCode := 500; res_headers := [];
                     res_body := error_body "timeout of 30000ms exceeded" |}] ∧
  on_tunnel_request config0 axios_ok 0 7 get_status = [Callback 0 7 ok_response].
Proof.
  split; [|split].
  - destruct (agent_always_answers config0 axios_refused 0 5 get_status)
      as (response & Hout & _ & Herr & _).
    rewrite Hout. by rewrite (Herr _ _ eq_refl).
  - destruct (agent_always_answers config0 axios_slow 0 6 post_item)
      as (response & Hout & _ & Herr & _).
    rewrite Hout. by rewrite (Herr _ _ eq_refl).
  - destruct (agent_always_answers config0 axios_ok 0 7 get_status)
      as (response & Hout & Hok & _).
    rewrite Hout. by rewrite (Hok _ _ _ eq_refl).
Defined.

End ClientFacts.

(** * The tunnel end to end *)

Module TunnelFacts.
Import Server Samples.



End TunnelFacts.

(** * Further properties of the relay *)

Module ServerMore.
Import Server Samples.

#[local] Set Warnings "-clear-no-such-hyp".

(** ** Credentials *)

(** X1. The middleware accepts a handshake exactly when the token is a
    payload signed under the relay's secret, not expired, of type
    'tunnel-client' and with a client id that is not empty; the identity it
    accepts is that client id. *)
Theorem auth_accepts_iff env clock token cid :
  auth_middleware env clock token = Accept cid ↔
  ∃ payload,
    token = Some (Signed payload (secret env)) ∧
    (∀ e, exp payload = Some e → (clock < e)%Z) ∧
    clientId payload = Some cid ∧ cid ≠ EmptyString ∧
    type payload = "tunnel-client".
Proof.
  split.
  - unfold auth_middleware. destruct token as [[raw|payload key]|]; [done| |done].
    unfold jwt_verify. destruct (decide (key = secret env)) as [->|Hk]; [|done].
    intros H. exists payload. split; [done|].
    assert (falsy (clientId payload)
            || negb (bool_decide (type payload = "tunnel-client")) = false
            ∧ Accept (default EmptyString (clientId payload)) = Accept cid
            ∧ ∀ e, exp payload = Some e → (clock < e)%Z) as (Hc & Ha & He).
    { destruct (exp payload) as [e|].
      - destruct (e <=? clock)%Z eqn:Hle; [done|].
        destruct (falsy _ || negb _); [done|].
        split; [done|]. split; [done|]. intros e' [= <-]. lia.
      - destruct (falsy _ || negb _); [done|]. done. }
    split; [exact He|].
    apply orb_false_iff in Hc as [Hf Ht]. apply negb_false_iff in Ht.
    apply bool_decide_eq_true in Ht. unfold falsy in Hf.
    destruct (clientId payload) as [c|]; [|done].
    apply bool_decide_eq_false in Hf. simpl in Ha. injection Ha as <-. done.
  - intros (payload & -> & He & Hc & Hne & Ht).
    unfold auth_middleware, jwt_verify. rewrite decide_True by done.
    assert (falsy (clientId payload)
            || negb (bool_decide (type payload = "tunnel-client")) = false) as Hcheck.
    { unfold falsy. rewrite Hc, Ht.
      rewrite (bool_decide_eq_false_2 (cid = EmptyString)) by done.
      by rewrite (bool_decide_eq_true_2 ("tunnel-client" = "tunnel-client")). }
    destruct (exp payload) as [e|] eqn:Hexp.
    + specialize (He e eq_refl). destruct (e <=? clock)%Z eqn:Hle; [lia|].
      rewrite Hcheck. by rewrite Hc.
    + rewrite Hcheck. by rewrite Hc.
Qed.

(** X2. Why the middleware refuses: no token, 'Authentication token
    required'; a string that is no token, a token signed under another key,
    or an expired token, 'Invalid token' (expiry is checked before the
    payload is looked at); a verified token without client id or of another
    type, 'Invalid token payload'. *)
Theorem auth_refusals env clock :
  auth_middleware env clock None = Refuse "Authentication token required" ∧
  (∀ raw, auth_middleware env clock (Some (Malformed raw)) = Refuse "Invalid token") ∧
  (∀ payload key, key ≠ secret env →
     auth_middleware env clock (Some (Signed payload key)) = Refuse "Invalid token") ∧
  (∀ payload e, exp payload = Some e → (e ≤ clock)%Z →
     auth_middleware env clock (Some (Signed payload (secret env))) = Refuse "Invalid token") ∧
  (∀ payload,
     (∀ e, exp payload = Some e → (clock < e)%Z) →
     clientId payload = None ∨ clientId payload = Some EmptyString
       ∨ type payload ≠ "tunnel-client" →
     auth_middleware env clock (Some (Signed payload (secret env)))
     = Refuse "Invalid token payload").
Proof.
  split; [done|]. split; [done|]. split; [|split].
  - intros payload key Hk. unfold auth_middleware, jwt_verify. by rewrite decide_False.
  - intros payload e He Hle. unfold auth_middleware, jwt_verify.
    rewrite decide_True by done. rewrite He.
    destruct (e <=? clock)%Z eqn:Hc; [done | lia].
  - intros payload He Hbad. unfold auth_middleware, jwt_verify.
    rewrite decide_True by done.
    assert (falsy (clientId payload)
            || negb (bool_decide (type payload = "tunnel-client")) = true) as Hcheck.
    { destruct Hbad as [Hc|[Hc|Ht]].
      - by rewrite Hc.
      - by rewrite Hc.
      - rewrite (bool_decide_eq_false_2 _ Ht). apply orb_true_r. }
    destruct (exp payload) as [e|] eqn:Hexp.
    + specialize (He e eq_refl). destruct (e <=? clock)%Z eqn:Hle; [lia|].
      by rewrite Hcheck.
    + by rewrite Hcheck.
Qed.

Lemma auth_refusals_witness :
  auth_middleware env0 100
    (Some (Signed {| clientId := Some "a"; type := "tunnel-client";
                     iat := Some 0%Z; exp := Some 50%Z |} "default-secret"))
  = Refuse "Invalid token" ∧
  auth_middleware env0 100
    (Some (Signed {| clientId := Some "a"; type := "admin";
                     iat := None; exp := None |} "default-secret"))
  = Refuse "Invalid token payload" ∧
  auth_middleware env0 100
    (Some (Signed {| clientId := Some "a"; type := "tunnel-client";
                     iat := None; exp := None |} "guess"))
  = Refuse "Invalid token".
Proof.
  destruct (auth_refusals env0 100) as (_ & _ & Hkey & Hexp & Hpay).
  split; [|split].
  - apply (Hexp _ 50%Z); [reflexivity | lia].
  - apply Hpay; [intros e [=] | right; right; discriminate].
  - apply Hkey. discriminate.
Defined.

(** X3. A token made by [generateToken] at time [t] is accepted, under the
    same configuration, as the client id it was made for until 30 days
    later, and refused as 'Invalid token' from then on; a relay that uses
    another secret refuses it at any time. *)
Theorem generated_token_lifetime env uuid t clock :
  uuid ≠ EmptyString →
  auth_middleware env clock (Some (generateToken env uuid t)) =
    (if (clock <? t + 2592000)%Z then Accept uuid else Refuse "Invalid token") ∧
  (∀ env', secret env' ≠ secret env →
     auth_middleware env' clock (Some (generateToken env uuid t)) = Refuse "Invalid token").
Proof.
  intros Hne. split.
  - unfold auth_middleware, generateToken, jwt_sign, jwt_verify.
    rewrite decide_True by done. cbn [exp clientId type falsy default].
    change (30 * 24 * 3600)%Z with 2592000%Z.
    destruct (t + 2592000 <=? clock)%Z eqn:Hle; destruct (clock <? t + 2592000)%Z eqn:Hlt;
      try lia; [done|].
    unfold falsy. cbn [clientId type default].
    rewrite (bool_decide_eq_false_2 (uuid = EmptyString)) by done.
    by rewrite (bool_decide_eq_true_2 ("tunnel-client" = "tunnel-client")).
  - intros env' Hs. unfold auth_middleware, generateToken, jwt_sign, jwt_verify.
    by rewrite decide_False.
Qed.

Lemma generated_token_lifetime_witness :
  auth_middleware env0 2591999 (Some (generateToken env0 "agent-1" 0)) = Accept "agent-1" ∧
  auth_middleware env0 2592000 (Some (generateToken env0 "agent-1" 0)) = Refuse "Invalid token" ∧
  auth_middleware {| JWT_SECRET := Some "s3cret" |} 10 (Some (generateToken env0 "agent-1" 0))
  = Refuse "Invalid token".
Proof.
  assert ("agent-1" ≠ EmptyString) as Hne by discriminate.
  destruct (generated_token_lifetime env0 "agent-1" 0 2591999 Hne) as [H1 _].
  destruct (generated_token_lifetime env0 "agent-1" 0 2592000 Hne) as [H2 _].
  destruct (generated_token_lifetime env0 "agent-1" 0 10 Hne) as [_ H3].
  split; [exact H1|]. split; [exact H2|]. apply H3. discriminate.
Defined.

(** ** Sessions *)

Lemma accept_nonempty env clock token cid :
  auth_middleware env clock token = Accept cid → cid ≠ EmptyString ∧ well_signed env token.
Proof.
  unfold auth_middleware. destruct token as [[raw|payload key]|]; [done| |done].
  unfold jwt_verify. destruct (decide (key = secret env)) as [->|Hk]; [|done].
  intros H. split; [|by exists payload].
  assert (falsy (clientId payload) = false
          ∧ Accept (default EmptyString (clientId payload)) = Accept cid) as [Hf Ha].
  { destruct (exp payload) as [e|]; [destruct (e <=? clock)%Z; [done|]|];
      destruct (falsy (clientId payload)); simpl in H; try done;
      destruct (negb _); done. }
  unfold falsy in Hf. destruct (clientId payload) as [c|]; [|done].
  apply bool_decide_eq_false in Hf. simpl in Ha. by injection Ha as <-.
Qed.




Lemma session_ok_same st st' :
  activeClient st' = activeClient st → now st' = now st → session_ok st → session_ok st'.
Proof. intros Ha Hn [H1 H2 H3]. split; rewrite Ha, ?Hn; done. Qed.

Lemma step_session_ok env st ev : session_ok st → session_ok (step env st ev).1.
Proof.
  intros Hok. pose proof Hok as [Hauth Hid Hhb].
  destruct ev as [dt|tok|sid|sid resp|sid|sid|req|sid rid resp|rid]; simpl; try done.
  - split; simpl; [done | done |]. intros c Hc. specialize (Hhb c Hc). lia.
  - destruct (auth_middleware _ _ _) as [cid|msg] eqn:Hauth'.
    2: { by apply (session_ok_same st). }
    unfold on_connection. simpl. destruct (activeClient st) eqn:Ha; simpl.
    + apply (session_ok_same st); simpl; done.
    + apply accept_nonempty in Hauth' as [Hne _].
      split; simpl; intros c [= <-]; simpl; [done | done | lia].
  - destruct (decide _); [|done]. unfold on_heartbeat.
    destruct (activeClient st) as [c|] eqn:Ha; [|done].
    split; simpl; intros c' [= <-]; simpl; [by apply Hauth | by apply Hid | lia].
  - destruct (decide _); [|done]. unfold on_disconnect. simpl.
    destruct (activeClient st) as [c|] eqn:Ha; simpl.
    + destruct (decide _); simpl; [split; done|]. apply (session_ok_same st); simpl; done.
    + apply (session_ok_same st); simpl; done.
  - unfold on_request. destruct (activeClient st) eqn:Ha; simpl;
      apply (session_ok_same st); simpl; done.
  - destruct (requests st !! rid) as [r|]; [|done]. destruct (decide _); [|done].
    unfold on_ack. destruct (rq_promise r); by apply (session_ok_same st).
  - destruct (requests st !! rid) as [r|]; [|done].
    destruct (rq_timer r); [|done]. destruct (decide _); [|done].
    unfold on_timeout. destruct (rq_promise r); by apply (session_ok_same st).
Qed.

(** X5. The session the relay holds is always one that passed
    authentication: in every state the relay can reach, the record in
    [activeClient] has [authenticated] set, a client id that is not empty,
    and a [lastHeartbeat] that is not in the future. *)
Theorem session_always_ok env evs : session_ok (run env init evs).1.
Proof.
  induction evs as [|ev evs IH] using rev_ind; [split; done|].
  rewrite ServerFacts.run_snoc. pose proof (step_session_ok env (run env init evs).1 ev IH) as H.
  destruct (run env init evs) as [st0 out0]. simpl in *.
  by destruct (step env st0 ev) as [st1 out1].
Qed.

Lemma requests_ok_update st rid r r' :
  requests_ok st → requests st !! rid = Some r →
  rq_socket r' = rq_socket r → rq_timer r' = None →
  requests_ok (set_requests (<[rid := r']> (requests st)) st).
Proof.
  intros [Hdue Hsock] Hr Hs Ht. split; simpl.
  - intros rid' r'' due. rewrite lookup_insert.
    destruct (decide (rid = rid')); [|apply Hdue]. intros [= <-]. by rewrite Ht.
  - intros rid' r''. rewrite lookup_insert.
    destruct (decide (rid = rid')); [|apply Hsock]. intros [= <-]. rewrite Hs. by apply (Hsock rid).
Qed.

Lemma step_requests_ok env st ev : inv st → requests_ok st → requests_ok (step env st ev).1.
Proof.
  intros Hi Hok. pose proof Hok as [Hdue Hsock].
  destruct ev as [dt|tok|sid|sid resp|sid|sid|req|sid rid resp|rid]; simpl; try done.
  - split; simpl; [|done]. intros rid r due Hr Ht. specialize (Hdue rid r due Hr Ht). lia.
  - assert (requests_ok (set_next_socket (S (next_socket st)) st)) as Hok'.
    { split; simpl; [done|]. intros rid r Hr. specialize (Hsock rid r Hr). lia. }
    destruct (auth_middleware _ _ _); [|done].
    unfold on_connection. simpl. destruct (activeClient st); simpl; [done|].
    destruct Hok' as [Hd Hs]. split; done.
  - destruct (decide _); [|done]. unfold on_heartbeat.
    destruct (activeClient st); [|done]. split; done.
  - destruct (decide _); [|done]. unfold on_disconnect. simpl.
    destruct (activeClient st); simpl; [|split; done]. destruct (decide _); split; done.
  - unfold on_request. destruct (activeClient st) as [c|] eqn:Ha; simpl; [|split; done].
    split; simpl.
    + intros rid r due. rewrite lookup_insert.
      destruct (decide (next_request st = rid)); [|apply Hdue].
      intros [= <-]. simpl. intros [= <-]. lia.
    + intros rid r. rewrite lookup_insert.
      destruct (decide (next_request st = rid)); [|apply Hsock].
      intros [= <-]. simpl. by apply (inv_socket st Hi).
  - destruct (requests st !! rid) as [r|] eqn:Hr; [|done]. destruct (decide _); [|done].
    unfold on_ack. destruct (rq_promise r); simpl; by eapply requests_ok_update.
  - destruct (requests st !! rid) as [r|] eqn:Hr; [|done].
    destruct (rq_timer r); [|done]. destruct (decide _); [|done].
    unfold on_timeout. destruct (rq_promise r); simpl; by eapply requests_ok_update.
Qed.

Lemma run_requests_ok env evs st :
  inv st → requests_ok st → requests_ok (run env st evs).1.
Proof.
  revert st. induction evs as [|ev evs IH]; intros st Hi Hok; simpl; [done|].
  pose proof (ServerFacts.step_inv env st ev Hi) as Hi1.
  pose proof (step_requests_ok env st ev Hi Hok) as Hok1.
  destruct (step env st ev) as [st1 out1]. specialize (IH st1 Hi1 Hok1).
  by destruct (run env st1 evs).
Qed.

Lemma requests_ok_init : requests_ok init.
Proof. split; simpl; intros rid r; [intros due|]; by rewrite lookup_empty. Qed.

(** X6. No request waits longer than 30000 ms: in every state the relay can
    reach, the timer of every pending request is armed and is due at most
    30000 ms from now. *)
Theorem pending_timer_bound env evs rid :
  let st := (run env init evs).1 in
  rid ∈ pending st →
  ∃ r due, requests st !! rid = Some r ∧ rq_timer r = Some due ∧ (due ≤ now st + 30000)%N.
Proof.
  intros st Hp. apply ServerFacts.elem_of_pending in Hp as (r & Hr & Hp).
  pose proof (ServerFacts.reachable_inv env evs) as Hi. fold st in Hi.
  destruct (inv_pending st Hi rid r Hr Hp) as [_ [due Hdue]].
  exists r, due. split; [done|]. split; [done|].
  pose proof (run_requests_ok env evs init ServerFacts.inv_init requests_ok_init) as [Hd _].
  by apply (Hd rid r due).
Qed.

Lemma pending_timer_bound_witness :
  let st := (run env0 init [Connect token0; Advance 5; HttpRequest get_status; Advance 100]).1 in
  0%nat ∈ pending st ∧
  ∃ r due, requests st !! 0%nat = Some r ∧ rq_timer r = Some due ∧ (due ≤ now st + 30000)%N.
Proof.
  intros st. assert (0%nat ∈ pending st) as Hp by (by vm_compute).
  split; [exact Hp|].
  exact (pending_timer_bound env0
           [Connect token0; Advance 5; HttpRequest get_status; Advance 100] 0 Hp).
Defined.

(** X7. The disconnect of a socket that is not the attached one removes no
    session: in every state the relay can reach, it changes nothing at all
    and emits nothing. *)
Theorem disconnect_stale_noop env evs sid :
  let st := (run env init evs).1 in
  (∀ c, activeClient st = Some c → socket_id (socket c) ≠ sid) →
  step env st (Disconnect sid) = (st, []).
Proof.
  intros st Hne. pose proof (ServerFacts.reachable_inv env evs) as Hi. fold st in Hi.
  simpl. destruct (decide (sid ∈ listening st)) as [Hin|Hnin]; [|done].
  by apply ServerFacts.not_attached_not_listening in Hne.
Qed.

Lemma disconnect_stale_noop_witness :
  let st := (run env0 init [Connect token0; Connect token1; HttpRequest get_status]).1 in
  step env0 st (Disconnect 1) = (st, []) ∧
  (socket_id ∘ socket <$> activeClient (step env0 st (Disconnect 1)).1) = Some 0%nat.
Proof.
  intros st.
  assert (step env0 st (Disconnect 1) = (st, [])) as H.
  { apply (disconnect_stale_noop env0
             [Connect token0; Connect token1; HttpRequest get_status] 1).
    intros c [= <-]. simpl. lia. }
  split; [exact H|]. rewrite H. reflexivity.
Defined.

(** X8. A public request that arrives while an agent is attached is emitted
    once, unchanged, on the attached socket and nowhere else; nothing is
    written to the caller yet; the request becomes pending under a number no
    other request has, with its timer due 30000 ms from now, and the session
    and all other requests stay as they were. *)
Theorem dispatch_registers env evs req c :
  let st := (run env init evs).1 in
  let rid := next_request st in
  let st' := (step env st (HttpRequest req)).1 in
  activeClient st = Some c →
  (step env st (HttpRequest req)).2 = [EmitTunnelRequest (socket_id (socket c)) rid req] ∧
  requests st !! rid = None ∧
  requests st' !! rid =
    Some {| rq_socket := socket_id (socket c); rq_timer := Some (now st + 30000)%N;
            rq_ack := true; rq_promise := Pending |} ∧
  (∀ rid', rid' ≠ rid → requests st' !! rid' = requests st !! rid') ∧
  pending st' = {[rid]} ∪ pending st ∧
  activeClient st' = Some c.
Proof.
  intros st rid st' Ha. pose proof (ServerFacts.reachable_inv env evs) as Hi. fold st in Hi.
  assert (requests st !! rid = None) as Hfresh by (apply (inv_fresh st Hi); lia).
  subst st'. simpl. unfold on_request. rewrite Ha. simpl.
  split; [done|]. split; [done|]. split; [apply lookup_insert_eq|]. split; [|split; [|done]].
  - intros rid' Hne. by rewrite lookup_insert_ne.
  - apply set_eq. intros x.
    rewrite (ServerFacts.pending_update st _ rid
               {| rq_socket := socket_id (socket c); rq_timer := Some (now st + 30000)%N;
                  rq_ack := true; rq_promise := Pending |}) by reflexivity.
    simpl. rewrite elem_of_union, elem_of_singleton. split.
    + intros [[-> _]|[_ Hp]]; [by left | by right].
    + intros [->|Hp]; [by left|]. right. split; [|done].
      intros ->. apply ServerFacts.elem_of_pending in Hp as (r & Hr & _). congruence.
Qed.

Lemma dispatch_registers_witness :
  let st := (run env0 init [Connect token0; HttpRequest get_status]).1 in
  (socket_id ∘ socket <$> activeClient st) = Some 0%nat ∧
  (step env0 st (HttpRequest post_item)).2 = [EmitTunnelRequest 0 1 post_item] ∧
  pending (step env0 st (HttpRequest post_item)).1 = {[1%nat]} ∪ pending st.
Proof.
  intros st. split; [reflexivity|].
  destruct (dispatch_registers env0 [Connect token0; HttpRequest get_status] post_item
              {| socket := {| socket_id := 0; data_clientId := "agent-1" |};
                 authenticated := true; lastHeartbeat := 0 |} eq_refl)
    as (Hout & _ & _ & _ & Hp & _).
  split; [exact Hout | exact Hp].
Defined.

Lemma catch_not_sent rid st o : o ∈ catch_block rid st → sent_to o = None.
Proof.
  unfold catch_block. destruct (activeClient st); intros Hin;
    apply list_elem_of_singleton in Hin as ->; done.
Qed.

Lemma after_await_not_sent rid response st o :
  o ∈ after_await rid response st → sent_to o = None.
Proof.
  unfold after_await. destruct (activeClient st).
  - rewrite elem_of_app. intros [Hin|Hin].
    + apply list_elem_of_fmap in Hin as (kv & -> & _). done.
    + apply list_elem_of_singleton in Hin as ->. done.
  - apply catch_not_sent.
Qed.

(** X9. The relay talks to nobody but the attached agent: whatever state it
    is in and whatever event arrives, a tunnel request or a heartbeat
    acknowledgement it emits goes to the socket of the current session. *)
Theorem emits_only_to_session env evs ev o sid :
  let st := (run env init evs).1 in
  o ∈ (step env st ev).2 →
  sent_to o = Some sid →
  ∃ c, activeClient st = Some c ∧ socket_id (socket c) = sid.
Proof.
  intros st Hin Hsent. pose proof (ServerFacts.reachable_inv env evs) as Hi. fold st in Hi.
  destruct ev as [dt|tok|sid0|sid0 resp|sid0|sid0|req|sid0 rid resp|rid]; simpl in Hin.
  - by apply elem_of_nil in Hin.
  - destruct (auth_middleware _ _ _).
    + unfold on_connection in Hin. simpl in Hin. destruct (activeClient st); simpl in Hin.
      * repeat (apply elem_of_cons in Hin as [->|Hin]; [done|]). by apply elem_of_nil in Hin.
      * by apply elem_of_nil in Hin.
    + apply list_elem_of_singleton in Hin as ->. done.
  - destruct (decide (sid0 ∈ listening st)) as [Hl|Hl]; [|by apply elem_of_nil in Hin].
    unfold on_heartbeat in Hin. destruct (activeClient st) as [c|] eqn:Ha;
      [|by apply elem_of_nil in Hin].
    apply list_elem_of_singleton in Hin as ->. injection Hsent as <-.
    exists c. split; [done|]. rewrite (ServerFacts.attached_listening st c Hi Ha) in Hl.
    by apply elem_of_singleton in Hl.
  - by apply elem_of_nil in Hin.
  - destruct (decide _); [|by apply elem_of_nil in Hin].
    unfold on_disconnect in Hin. simpl in Hin. destruct (activeClient st); simpl in Hin;
      [destruct (decide _)|]; by apply elem_of_nil in Hin.
  - by apply elem_of_nil in Hin.
  - unfold on_request in Hin. destruct (activeClient st) as [c|] eqn:Ha; simpl in Hin.
    + apply list_elem_of_singleton in Hin as ->. injection Hsent as <-. by exists c.
    + apply list_elem_of_singleton in Hin as ->. done.
  - destruct (requests st !! rid) as [r|]; [|by apply elem_of_nil in Hin].
    destruct (decide _); [|by apply elem_of_nil in Hin].
    unfold on_ack in Hin. destruct (rq_promise r); simpl in Hin;
      [|by apply elem_of_nil in Hin..].
    apply after_await_not_sent in Hin. congruence.
  - destruct (requests st !! rid) as [r|]; [|by apply elem_of_nil in Hin].
    destruct (rq_timer r); [|by apply elem_of_nil in Hin].
    destruct (decide _); [|by apply elem_of_nil in Hin].
    unfold on_timeout in Hin. destruct (rq_promise r); simpl in Hin;
      [|by apply elem_of_nil in Hin..].
    apply catch_not_sent in Hin. congruence.
Qed.

Lemma emits_only_to_session_witness :
  let st := (run env0 init [Connect token0; Connect token1]).1 in
  EmitHeartbeatAck 0 ∈ (step env0 st (Heartbeat 0)).2 ∧
  ∃ c, activeClient st = Some c ∧ socket_id (socket c) = 0%nat.
Proof.
  intros st.
  assert (EmitHeartbeatAck 0 ∈ (step env0 st (Heartbeat 0)).2) as Hin.
  { vm_compute. apply list_elem_of_singleton. reflexivity. }
  split; [exact Hin|].
  exact (emits_only_to_session env0 [Connect token0; Connect token1] (Heartbeat 0)
           (EmitHeartbeatAck 0) 0 Hin eq_refl).
Defined.

(** ** Requests that lose their agent *)

Lemma run_cons_snd env st ev evs :
  (run env st (ev :: evs)).2 = (step env st ev).2 ++ (run env (step env st ev).1 evs).2.
Proof.
  change (run env st (ev :: evs)) with
    (let '(st1, out1) := step env st ev in
     let '(st2, out2) := run env st1 evs in (st2, out1 ++ out2)).
  destruct (step env st ev) as [st1 out1]. simpl. by destruct (run env st1 evs).
Qed.

Lemma run_app_snd env st evs1 evs2 :
  (run env st (evs1 ++ evs2)).2 =
  (run env st evs1).2 ++ (run env (run env st evs1).1 evs2).2.
Proof.
  revert st. induction evs1 as [|e evs1 IH]; intros st; [done|].
  rewrite <- app_comm_cons, !run_cons_snd, IH, app_assoc. simpl.
  destruct (step env st e) as [st1 out1]. simpl. by destruct (run env st1 evs1).
Qed.

(** Once a request is settled nothing more is written to its caller. *)
Lemma settled_silent env evs st rid :
  inv st →
  ¬ ((next_request st ≤ rid)%nat ∨ rid ∈ pending st) →
  replies rid (run env st evs).2 = [].
Proof.
  revert st. induction evs as [|ev evs IH]; intros st Hi Hset; simpl; [done|].
  pose proof (ServerFacts.step_writes_once env st ev rid Hi) as [Hw1 Hw2].
  pose proof (ServerFacts.step_inv env st ev Hi) as Hi1.
  destruct (step env st ev) as [st1 out1]. simpl in *.
  assert (¬ ((next_request st1 ≤ rid)%nat ∨ rid ∈ pending st1)) as Hset1.
  { intros H. by apply Hset, Hw2. }
  specialize (IH st1 Hi1 Hset1). destruct (run env st1 evs) as [st2 out2]. simpl in *.
  rewrite ServerFacts.replies_app, IH, app_nil_r.
  destruct Hw1 as [H|(_ & H & _)]; [done | by destruct Hset].
Qed.

(** X10. A request whose timer fires while no session is attached is never
    answered: the handler fails with a TypeError before it writes anything,
    the request is settled all the same, and whatever happens before or
    afterwards nothing is ever written to its caller. *)
Theorem timeout_without_session_unanswered env evs rid r due evs' :
  let st := (run env init evs).1 in
  requests st !! rid = Some r → rq_promise r = Pending →
  rq_timer r = Some due → (due ≤ now st)%N →
  activeClient st = None →
  (step env st (RequestTimeout rid)).2 = [Unhandled rid] ∧
  (rid ∉ pending (step env st (RequestTimeout rid)).1) ∧
  replies rid (run env init (evs ++ RequestTimeout rid :: evs')).2 = [].
Proof.
  intros st Hr Hp Hdue Hle Ha.
  pose proof (ServerFacts.reachable_inv env evs) as Hi. fold st in Hi.
  assert (rid ∈ pending st) as Hpend by (apply ServerFacts.elem_of_pending; eauto).
  destruct (ServerFacts.run_writes_once env evs rid) as [_ Hnone].
  fold st in Hnone. specialize (Hnone (or_intror Hpend)).
  assert (step env st (RequestTimeout rid) =
          (set_requests (<[rid := {| rq_socket := rq_socket r; rq_timer := None;
                                     rq_ack := rq_ack r; rq_promise := Rejected |}]>
                           (requests st)) st, [Unhandled rid])) as Hstep.
  { simpl. rewrite Hr, Hdue. rewrite decide_True by done.
    unfold on_timeout. rewrite Hp. unfold catch_block. simpl. by rewrite Ha. }
  assert (rid ∉ pending (step env st (RequestTimeout rid)).1) as Hnot.
  { rewrite Hstep. simpl. rewrite (ServerFacts.pending_update st) by reflexivity.
    simpl. intros [[_ H]|[H _]]; done. }
  split; [by rewrite Hstep|]. split; [exact Hnot|].
  rewrite run_app_snd, run_cons_snd, !ServerFacts.replies_app. fold st.
  assert (replies rid (step env st (RequestTimeout rid)).2 = []) as Hquiet
    by (by rewrite Hstep).
  rewrite Hnone, Hquiet, !app_nil_l.
  apply settled_silent; [by apply ServerFacts.step_inv|].
  intros [Hge|Hin]; [|done].
  pose proof (ServerFacts.inv_known st rid r Hi Hr) as Hlt.
  rewrite Hstep in Hge. simpl in Hge. lia.
Qed.

Lemma timeout_without_session_unanswered_witness :
  let evs := [Connect token0; HttpRequest get_status; Disconnect 0; Advance 30000] in
  let later := [Connect token1; Ack 1 0 ok_response; Ack 0 0 ok_response; RequestTimeout 0] in
  activeClient (run env0 init evs).1 = None ∧
  replies 0 (run env0 init (evs ++ RequestTimeout 0 :: later)).2 = [].
Proof.
  intros evs later. split; [reflexivity|].
  apply (timeout_without_session_unanswered env0 evs 0
           {| rq_socket := 0; rq_timer := Some 30000%N; rq_ack := true; rq_promise := Pending |}
           30000%N later); [by vm_compute | reflexivity | reflexivity | | reflexivity].
  vm_compute. discriminate.
Defined.

Lemma orphaned_intro rid sock st r :
  sock ∉ listening st → (sock < next_socket st)%nat →
  requests st !! rid = Some r → rq_socket r = sock →
  rq_promise r = Pending ∨ rq_promise r = Rejected →
  orphaned rid sock st.
Proof. intros. split; [done|]. split; [done|]. by exists r. Qed.

Lemma step_orphaned env st ev rid sock :
  inv st → orphaned rid sock st → orphaned rid sock (step env st ev).1.
Proof.
  intros Hi Ho. pose proof Ho as (Hgone & Hlt & r & Hr & Hs & Hp).
  pose proof (ServerFacts.inv_known st rid r Hi Hr) as Hknown.
  destruct ev as [dt|tok|sid|sid resp|sid|sid|req|sid rid0 resp|rid0]; simpl; try done.
  - assert (orphaned rid sock (set_next_socket (S (next_socket st)) st)) as Hnext.
    { apply (orphaned_intro _ _ _ r); simpl; try done. lia. }
    destruct (auth_middleware _ _ _); [|done].
    unfold on_connection. simpl. destruct (activeClient st); simpl; [done|].
    apply (orphaned_intro _ _ _ r); simpl; try done; [set_solver by lia | lia].
  - destruct (decide _); [|done]. unfold on_heartbeat.
    destruct (activeClient st); [|done]. apply (orphaned_intro _ _ _ r); simpl; done.
  - destruct (decide _); [|done]. unfold on_disconnect. simpl.
    destruct (activeClient st); simpl; [destruct (decide _)|];
      (apply (orphaned_intro _ _ _ r); simpl; try done; set_solver).
  - unfold on_request. destruct (activeClient st); simpl.
    + apply (orphaned_intro _ _ _ r); simpl; try done.
      rewrite lookup_insert_ne by lia. done.
    + apply (orphaned_intro _ _ _ r); simpl; done.
  - destruct (requests st !! rid0) as [r0|] eqn:Hr0; [|done].
    destruct (decide _) as [(Hin & Hsock & _)|Hno]; [|done].
    assert (rid0 ≠ rid) as Hne.
    { intros ->. assert (r0 = r) as -> by congruence. congruence. }
    unfold on_ack. destruct (rq_promise r0); simpl;
      (apply (orphaned_intro _ _ _ r); simpl; try done; by rewrite lookup_insert_ne).
  - destruct (requests st !! rid0) as [r0|] eqn:Hr0; [|done].
    destruct (rq_timer r0); [|done]. destruct (decide _); [|done].
    unfold on_timeout. destruct (decide (rid0 = rid)) as [->|Hne].
    + assert (r0 = r) as -> by congruence.
      destruct (rq_promise r) eqn:Hpr; simpl.
      * apply (orphaned_intro _ _ _
                 {| rq_socket := rq_socket r; rq_timer := None; rq_ack := rq_ack r;
                    rq_promise := Rejected |}); simpl;
          [done | done | by rewrite lookup_insert_eq | done | by right].
      * by destruct Hp.
      * apply (orphaned_intro _ _ _
                 {| rq_socket := rq_socket r; rq_timer := None; rq_ack := rq_ack r;
                    rq_promise := Rejected |}); simpl;
          [done | done | by rewrite lookup_insert_eq | done | by right].
    + destruct (rq_promise r0); simpl;
        (apply (orphaned_intro _ _ _ r); simpl; try done; by rewrite lookup_insert_ne).
Qed.

Lemma run_orphaned env evs st rid sock :
  inv st → orphaned rid sock st → orphaned rid sock (run env st evs).1.
Proof.
  revert st. induction evs as [|ev evs IH]; intros st Hi Ho; simpl; [done|].
  pose proof (ServerFacts.step_inv env st ev Hi) as Hi1.
  pose proof (step_orphaned env st ev rid sock Hi Ho) as Ho1.
  destruct (step env st ev) as [st1 out1]. specialize (IH st1 Hi1 Ho1).
  by destruct (run env st1 evs).
Qed.

(** X11. A request does not survive its agent: once the socket it was
    emitted on is gone, no later session can answer it.  Whatever happens
    afterwards, the request is never fulfilled (it stays pending or is
    rejected by its timer), and every acknowledgement for it, from whatever
    socket, is discarded without any effect. *)
Theorem orphaned_never_fulfilled env evs rid r evs' :
  let st := (run env init evs).1 in
  let st' := (run env st evs').1 in
  requests st !! rid = Some r → rq_promise r = Pending →
  rq_socket r ∉ listening st →
  (∃ r', requests st' !! rid = Some r' ∧
         (rq_promise r' = Pending ∨ rq_promise r' = Rejected)) ∧
  (∀ sid response, step env st' (Ack sid rid response) = (st', [])).
Proof.
  intros st st' Hr Hp Hgone.
  pose proof (ServerFacts.reachable_inv env evs) as Hi. fold st in Hi.
  pose proof (run_requests_ok env evs init ServerFacts.inv_init requests_ok_init) as [_ Hsock].
  fold st in Hsock.
  assert (orphaned rid (rq_socket r) st) as Ho.
  { split; [done|]. split; [by apply (Hsock rid)|]. exists r. eauto. }
  pose proof (run_orphaned env evs' st rid (rq_socket r) Hi Ho) as (Hgone' & _ & r' & Hr' & Hs' & Hp').
  fold st' in Hgone', Hr'. split; [eauto|].
  intros sid response. simpl. rewrite Hr'.
  destruct (decide _) as [(Hin & Heq & _)|Hno]; [|done]. congruence.
Qed.

Lemma orphaned_never_fulfilled_witness :
  let evs := [Connect token0; HttpRequest get_status; Disconnect 0] in
  let evs' := [Connect token1; Heartbeat 1] in
  let st' := (run env0 (run env0 init evs).1 evs').1 in
  (0%nat ∉ listening (run env0 init evs).1) ∧
  (socket_id ∘ socket <$> activeClient st') = Some 1%nat ∧
  step env0 st' (Ack 1 0 ok_response) = (st', []).
Proof.
  intros evs evs' st'.
  assert (0%nat ∉ listening (run env0 init evs).1) as Hgone by (by vm_compute).
  split; [exact Hgone|]. split; [reflexivity|].
  apply (orphaned_never_fulfilled env0 evs 0
           {| rq_socket := 0; rq_timer := Some 30000%N; rq_ack := true; rq_promise := Pending |}
           evs'); [by vm_compute | reflexivity | exact Hgone].
Defined.

(** X12. After the agent's disconnect the slot is free again: until someone
    attaches, public requests are answered 503, and the next connect attempt
    that passes authentication is accepted and becomes the session, on a
    socket the relay has not seen before. *)
Theorem reattach_after_disconnect env evs c token cid :
  let st := (run env init evs).1 in
  let st1 := (step env st (Disconnect (socket_id (socket c)))).1 in
  activeClient st = Some c →
  auth_middleware env (Z.of_N (now st) / 1000) token = Accept cid →
  (∀ req, (step env st1 (HttpRequest req)).2 =
          [ResJson (next_request st) 503 (error_body "Tunnel client not connected")]) ∧
  (step env st1 (Connect token)).2 = [] ∧
  activeClient (step env st1 (Connect token)).1 =
    Some {| socket := {| socket_id := next_socket st; data_clientId := cid |};
            authenticated := true; lastHeartbeat := now st |} ∧
  listening (step env st1 (Connect token)).1 = {[next_socket st]} ∧
  (socket_id (socket c) < next_socket st)%nat.
Proof.
  intros st st1 Ha Hauth. pose proof (ServerFacts.reachable_inv env evs) as Hi. fold st in Hi.
  assert (st1 = set_activeClient None (set_listening ∅ st)) as ->.
  { subst st1. simpl. rewrite (ServerFacts.attached_listening st c Hi Ha).
    destruct (decide _) as [Hin|Hnin]; [|set_solver].
    unfold on_disconnect. simpl. rewrite Ha.
    destruct (decide _) as [Heq|Hne]; [|done]. simpl.
    by rewrite (difference_diag_L _). }
  split; [|split; [|split; [|split]]].
  - intros req. simpl. unfold on_request. done.
  - simpl. rewrite Hauth. done.
  - simpl. rewrite Hauth. done.
  - simpl. rewrite Hauth. simpl. by rewrite (right_id_L ∅ (∪)).
  - by apply (inv_socket st Hi).
Qed.

Lemma reattach_after_disconnect_witness :
  let st := (run env0 init [Connect token0; HttpRequest get_status]).1 in
  let st1 := (step env0 st (Disconnect 0)).1 in
  (socket_id ∘ socket <$> activeClient st) = Some 0%nat ∧
  auth_middleware env0 0 token1 = Accept "agent-2" ∧
  (socket_id ∘ socket <$> activeClient (step env0 st1 (Connect token1)).1) = Some 1%nat.
Proof.
  intros st st1. split; [reflexivity|]. split; [reflexivity|].
  destruct (reattach_after_disconnect env0 [Connect token0; HttpRequest get_status]
              {| socket := {| socket_id := 0; data_clientId := "agent-1" |};
                 authenticated := true; lastHeartbeat := 0 |} token1 "agent-2"
              eq_refl eq_refl) as (_ & _ & Hact & _).
  subst st1 st. cbn [socket_id socket] in Hact. by rewrite Hact.
Defined.



End ServerMore.

(** * Further properties of the agent *)

Module ClientMore.
Import Client Samples.

Section Agent.

Variable config : TunnelConfig.
Variable axios : AxiosRequest → AxiosResult.

Lemma wired_constructed : wired config constructed.
Proof.
  split; simpl; intros; try done;
    repeat match goal with H : _ !! _ = Some _ |- _ => by rewrite ?lookup_empty in H end.
Qed.

(** [connect] when every socket is closed and no reconnect timer is armed. *)
Lemma connect_wired st :
  inv config st → wired config st →
  (∀ sid s, sockets st !! sid = Some s → s = SockClosed) →
  (∀ tid t, timers st !! tid = Some t → kind t = HeartbeatTick) →
  wired config (connect config st).1.
Proof.
  intros [Hir Hif] [Hc Hr Hh Hhd Hb Ha] Hclosed Hnone.
  assert (connected st = false) as Hconn.
  { unfold connected. destruct (socket st) as [sid|]; [|done].
    destruct (sockets st !! sid) as [s|] eqn:Hs; [|done]. by rewrite (Hclosed sid s Hs). }
  unfold connect. rewrite Hconn. cbn [fst]. unfold startHeartbeat. simpl.
  destruct (heartbeatHandle st) as [h|] eqn:Hhb; simpl.
  all: split; simpl.
  all: try (intros sid s [[_ Hs]|[-> _]]%lookup_snoc_Some Hne;
            [by rewrite (Hclosed sid s Hs) in Hne | done]).
  all: try (intros tid t sid s Ht Hk; exfalso;
            apply lookup_insert_Some in Ht as [[_ <-]|[_ Ht]]; [done|];
            try apply lookup_delete_Some in Ht as [_ Ht];
            by rewrite (Hnone tid t Ht) in Hk).
  all: try (intros tid t Ht Hk;
            apply lookup_insert_Some in Ht as [[<- <-]|[Hne Ht]]; [done|];
            try apply lookup_delete_Some in Ht as [Hne' Ht];
            destruct (Hh tid t Ht Hk) as [Heq _]; congruence).
  all: try (intros h' t Hh' Ht; specialize (Hb h' Hh');
            apply lookup_insert_Some in Ht as [[<- _]|[_ Ht]]; [lia|];
            try apply lookup_delete_Some in Ht as [_ Ht];
            by apply (Hhd h' t)).
  all: try (intros h' Hh'; specialize (Hb h' Hh'); lia).
  all: intros sid s _ _; eexists _, _; rewrite lookup_insert_eq; done.
Qed.

Lemma on_connect_wired st sid :
  wired config st → sockets st !! sid = Some SockOpening →
  wired config (on_connect (set_sockets (<[sid := SockConnected]> (sockets st)) st)).
Proof.
  intros [Hc Hr Hh Hhd Hb Ha] Hs.
  assert (∀ tid t, timers st !! tid = Some t → kind t = HeartbeatTick) as Hnone.
  { intros tid t Ht. destruct (kind t) eqn:Hk; [done|].
    by specialize (Hr tid t sid _ Ht Hk Hs). }
  destruct (Ha sid _ Hs ltac:(done)) as (hb & thb & Hhb & Hthb & Hkhb).
  unfold on_connect. simpl. destruct (reconnectTimeout st) as [h|] eqn:Hrt; simpl.
  all: split; simpl.
  all: try (intros sid' s [(Heq & _ & _)|[Hne Hs']]%list_lookup_insert_Some Hnc;
            [rewrite <- Heq; by apply (Hc sid SockOpening) | by apply (Hc sid' s)]).
  all: try (intros tid t sid' s Ht Hk; exfalso;
            try apply lookup_delete_Some in Ht as [_ Ht];
            by rewrite (Hnone tid t Ht) in Hk).
  all: try (intros tid t Ht Hk; try apply lookup_delete_Some in Ht as [_ Ht]; by apply Hh).
  all: rewrite ?Hrt.
  all: try done.
  all: intros sid' s _ _; exists hb, thb; split; [done|]; split; [|done].
  - apply lookup_delete_Some. split; [|done]. intros ->.
    by rewrite (Hhd hb thb eq_refl Hthb) in Hkhb.
  - done.
Qed.

Lemma close_wired st sid :
  wired config st →
  wired config (set_sockets (<[sid := SockClosed]> (sockets st)) st).
Proof.
  intros [Hc Hr Hh Hhd Hb Ha]. split; simpl; try done.
  - intros sid' s [(-> & <- & _)|[Hne Hs']]%list_lookup_insert_Some Hnc; [done|].
    by apply (Hc sid' s).
  - intros tid t sid' s Ht Hk [(-> & <- & _)|[Hne Hs']]%list_lookup_insert_Some; [done|].
    by apply (Hr tid t sid' s).
  - intros sid' s [(-> & <- & _)|[Hne Hs']]%list_lookup_insert_Some Hnc; [done|].
    by apply (Ha sid' s).
Qed.

(** Once the only open socket is closed every socket is closed. *)
Lemma close_current_all_closed st sid s0 :
  wired config st → sockets st !! sid = Some s0 → s0 ≠ SockClosed →
  ∀ sid' s, <[sid := SockClosed]> (sockets st) !! sid' = Some s → s = SockClosed.
Proof.
  intros [Hc _ _ _ _ _] Hs Hopen sid' s.
  intros [(-> & <- & _)|[Hne Hs']]%list_lookup_insert_Some; [done|].
  pose proof (Hc sid s0 Hs Hopen) as H2.
  destruct s; [| |done]; exfalso.
  - pose proof (Hc sid' _ Hs' ltac:(done)) as H1. congruence.
  - pose proof (Hc sid' _ Hs' ltac:(done)) as H1. congruence.
Qed.

Lemma on_disconnect_wired st sid :
  wired config st → sockets st !! sid = Some SockConnected →
  wired config (on_disconnect config (set_sockets (<[sid := SockClosed]> (sockets st)) st)).
Proof.
  intros Hw Hs. pose proof (close_current_all_closed st sid _ Hw Hs ltac:(done)) as Hclosed.
  destruct Hw as [Hc Hr Hh Hhd Hb Ha].
  unfold on_disconnect, scheduleReconnect, stopHeartbeat. simpl.
  destruct (heartbeatHandle st) as [hb|] eqn:Hhb; simpl;
    destruct (reconnectTimeout st) as [h|] eqn:Hrt; simpl.
  all: split; simpl.
  all: try (intros sid' s Hs' Hnc; by rewrite (Hclosed sid' s Hs') in Hnc).
  all: try (intros tid t sid' s _ _ Hs'; by apply (Hclosed sid' s)).
  all: try (intros tid t Ht Hk; exfalso;
            apply lookup_insert_Some in Ht as [[_ <-]|[_ Ht]]; [done|];
            repeat (apply lookup_delete_Some in Ht as [? Ht]);
            destruct (Hh tid t Ht Hk) as [Heq _]; congruence).
  all: try (intros h' t [= <-] Ht; rewrite lookup_insert_eq in Ht; by injection Ht as <-).
  all: intros h' [= <-]; lia.
Qed.

Lemma clear_fired_wired st tid t :
  inv config st → wired config st →
  timers st !! tid = Some t → kind t = ReconnectOnce →
  inv config (clear tid st) ∧ wired config (clear tid st) ∧
  (∀ sid s, sockets (clear tid st) !! sid = Some s → s = SockClosed) ∧
  (∀ tid' t', timers (clear tid st) !! tid' = Some t' → kind t' = HeartbeatTick).
Proof.
  intros Hi Hw Ht Hk. pose proof Hi as [Hir Hif]. pose proof Hw as [Hc Hr Hh Hhd Hb Ha].
  assert (∀ sid s, sockets st !! sid = Some s → s = SockClosed) as Hclosed.
  { intros sid s Hs. by apply (Hr tid t sid s). }
  split; [by apply ClientFacts.clear_inv|]. split; [|split; [done|]].
  - split; simpl.
    + exact Hc.
    + intros tid' t' sid s _ _ Hs. by apply (Hclosed sid s).
    + intros tid' t' [_ Ht']%lookup_delete_Some Hk'. by apply Hh.
    + intros h t' Hh' [_ Ht']%lookup_delete_Some. by apply (Hhd h t').
    + exact Hb.
    + intros sid s Hs Hnc. by rewrite (Hclosed sid s Hs) in Hnc.
  - simpl. intros tid' t' [Hne Ht']%lookup_delete_Some.
    destruct (kind t') eqn:Hk'; [done|]. exfalso.
    destruct (Hir tid t Ht Hk) as [H1 _]. destruct (Hir tid' t' Ht' Hk') as [H2 _]. congruence.
Qed.

Lemma step_wired st ev :
  inv config st → wired config st → wired config (step config axios st ev).1.
Proof.
  intros Hi Hw. destruct ev as [sid|sid|sid|sid|sid ack req|sid|tid]; simpl; try done.
  - destruct (sockets st !! sid) as [[]|] eqn:Hs; try done. simpl. by apply on_connect_wired.
  - destruct (sockets st !! sid) as [[]|] eqn:Hs; try done. simpl. by apply close_wired.
  - destruct (sockets st !! sid) as [[]|] eqn:Hs; try done. simpl. by apply on_disconnect_wired.
  - by destruct (sockets st !! sid) as [[]|].
  - destruct (timers st !! tid) as [t|] eqn:Ht; [|done]. unfold on_timer.
    destruct (kind t) eqn:Hk.
    + by destruct (connected st).
    + destruct (clear_fired_wired st tid t Hi Hw Ht Hk) as (Hi' & Hw' & Hclosed & Hnone).
      by apply connect_wired.
Qed.

Lemma reachable_wired evs : wired config (run config axios (start config).1 evs).1.
Proof.
  assert (∀ st, inv config st → wired config st →
                wired config (run config axios st evs).1) as Hrun.
  { induction evs as [|ev evs IH]; intros st Hi Hw; simpl; [done|].
    pose proof (step_wired st ev Hi Hw) as Hw1.
    pose proof (ClientFacts.agent_step_inv config axios st ev Hi) as Hi1.
    destruct (step config axios st ev) as [st1 out1]. specialize (IH st1 Hi1 Hw1).
    by destruct (run config axios st1 evs). }
  apply Hrun.
  - apply ClientFacts.connect_inv, ClientFacts.inv_constructed.
  - apply connect_wired; [apply ClientFacts.inv_constructed | apply wired_constructed | |];
      simpl; intros ??; by rewrite ?lookup_nil, ?lookup_empty.
Qed.

Lemma no_reconnect_if_open st sid s :
  wired config st → sockets st !! sid = Some s → s ≠ SockClosed →
  reconnect_timers st = ∅.
Proof.
  intros Hw Hs Hopen. apply map_empty. intros tid.
  apply map_lookup_filter_None. right. intros t Ht Hk. simpl in Hk.
  by pose proof (wired_reconnect config st Hw tid t sid s Ht Hk Hs).
Qed.

Lemma no_heartbeat_if_unset st :
  wired config st → heartbeatHandle st = None → heartbeat_timers st = ∅.
Proof.
  intros Hw Hnone. apply map_empty. intros tid.
  apply map_lookup_filter_None. right. intros t Ht Hk. simpl in Hk.
  destruct (wired_heartbeat config st Hw tid t Ht Hk) as [Heq _]. congruence.
Qed.

(** ** Connections *)

(** X14. Only one connection is in flight at a time: in every state the
    agent can reach, at most one of the sockets it ever made is opening or
    connected, and that socket is [this.socket]. *)
Theorem one_connection_at_a_time evs sid1 s1 sid2 s2 :
  let st := (run config axios (start config).1 evs).1 in
  sockets st !! sid1 = Some s1 → s1 ≠ SockClosed →
  sockets st !! sid2 = Some s2 → s2 ≠ SockClosed →
  sid1 = sid2 ∧ socket st = Some sid1 ∧ connection_state st ≠ Disconnected.
Proof.
  intros st H1 N1 H2 N2. destruct (reachable_wired evs) as [Hc _ _ _ _ _]. fold st in Hc.
  pose proof (Hc sid1 s1 H1 N1) as E1. pose proof (Hc sid2 s2 H2 N2) as E2.
  split; [congruence|]. split; [done|].
  unfold connection_state. rewrite E1, H1. by destruct s1.
Qed.

(** X15. A reconnect timer is armed only while the agent is disconnected:
    whenever one is armed, every socket is closed, and the timer is the one
    [this.reconnectTimeout] holds. *)
Theorem reconnect_only_while_disconnected evs tid t :
  let st := (run config axios (start config).1 evs).1 in
  reconnect_timers st !! tid = Some t →
  connection_state st = Disconnected ∧
  reconnectTimeout st = Some tid ∧
  (∀ sid s, sockets st !! sid = Some s → s = SockClosed).
Proof.
  intros st [Ht Hk]%map_lookup_filter_Some. simpl in Hk.
  pose proof (reachable_wired evs) as Hw. fold st in Hw.
  pose proof (ClientFacts.agent_reachable_inv config axios evs) as Hi. fold st in Hi.
  assert (∀ sid s, sockets st !! sid = Some s → s = SockClosed) as Hclosed.
  { intros sid s Hs. by apply (wired_reconnect config st Hw tid t sid s). }
  split; [|split; [|done]].
  - unfold connection_state. destruct (socket st) as [sid|]; [|done].
    destruct (sockets st !! sid) as [s|] eqn:Hs; [|done]. by rewrite (Hclosed sid s Hs).
  - by destruct (inv_reconnect config st Hi tid t Ht Hk).
Qed.

(** X16. At most one heartbeat interval is armed at any time: every armed
    one is the one [this.heartbeatInterval] holds, and it ticks every
    [heartbeatInterval] of the configuration. *)
Theorem heartbeat_timer_unique evs tid1 t1 tid2 t2 :
  let st := (run config axios (start config).1 evs).1 in
  heartbeat_timers st !! tid1 = Some t1 →
  heartbeat_timers st !! tid2 = Some t2 →
  tid1 = tid2 ∧ heartbeatHandle st = Some tid1 ∧ delay t1 = heartbeatInterval config.
Proof.
  intros st [H1 K1]%map_lookup_filter_Some [H2 K2]%map_lookup_filter_Some. simpl in *.
  pose proof (reachable_wired evs) as Hw. fold st in Hw.
  destruct (wired_heartbeat config st Hw tid1 t1 H1 K1) as [E1 D1].
  destruct (wired_heartbeat config st Hw tid2 t2 H2 K2) as [E2 _].
  split; [congruence | done].
Qed.

(** X17. Keepalives are sent while, and only while, the agent is connected:
    in a connected state the heartbeat interval is armed and each tick emits
    one ['heartbeat'] on [this.socket]; in any other state a tick of a
    heartbeat interval emits nothing.  A tick never changes the state. *)
Theorem keepalive_while_connected evs :
  let st := (run config axios (start config).1 evs).1 in
  (connection_state st = Connected →
   ∃ tid sid, heartbeatHandle st = Some tid ∧ socket st = Some sid ∧
              step config axios st (TimerFires tid) = (st, [EmitHeartbeat sid])) ∧
  (connection_state st ≠ Connected →
   ∀ tid t, timers st !! tid = Some t → kind t = HeartbeatTick →
            step config axios st (TimerFires tid) = (st, [])).
Proof.
  intros st. pose proof (reachable_wired evs) as Hw. fold st in Hw. split.
  - unfold connection_state. intros Hconn.
    destruct (socket st) as [sid|] eqn:Hsock; [|done].
    destruct (sockets st !! sid) as [[]|] eqn:Hs; try done.
    destruct (wired_alive config st Hw sid _ Hs ltac:(done)) as (tid & t & Hhb & Ht & Hk).
    exists tid, sid. split; [done|]. split; [done|].
    simpl. rewrite Ht. unfold on_timer. rewrite Hk. unfold connected.
    by rewrite Hsock, Hs.
  - intros Hnot tid t Ht Hk. simpl. rewrite Ht. unfold on_timer. rewrite Hk.
    unfold connected. unfold connection_state in Hnot.
    destruct (socket st) as [sid|]; [|done].
    by destruct (sockets st !! sid) as [[]|].
Qed.

(** X18. A failed handshake ends the agent's attempts, in whatever state it
    happens: when ['connect_error'] arrives on the opening socket the agent
    is disconnected with no reconnect timer armed, and no event changes its
    state or makes it emit anything afterwards. *)
Theorem handshake_failure_sticks evs sid :
  let st := (run config axios (start config).1 evs).1 in
  let st' := (step config axios st (SocketConnectError sid)).1 in
  sockets st !! sid = Some SockOpening →
  connection_state st' = Disconnected ∧
  reconnect_timers st' = ∅ ∧
  (∀ evs', run config axios st' evs' = (st', [])).
Proof.
  intros st st' Hs. pose proof (reachable_wired evs) as Hw. fold st in Hw.
  assert (st' = set_sockets (<[sid := SockClosed]> (sockets st)) st) as ->.
  { subst st'. simpl. by rewrite Hs. }
  assert (stuck (set_sockets (<[sid := SockClosed]> (sockets st)) st)) as Hstuck.
  { split; simpl.
    - by apply (close_current_all_closed st sid SockOpening).
    - intros tid t Ht. destruct (kind t) eqn:Hk; [done|].
      by pose proof (wired_reconnect config st Hw tid t sid _ Ht Hk Hs). }
  split; [by apply ClientFacts.stuck_disconnected|]. split.
  - apply map_empty. intros tid. apply map_lookup_filter_None. right.
    intros t Ht Hk. simpl in Hk. destruct Hstuck as [_ Hbeat].
    by rewrite (Hbeat tid t Ht) in Hk.
  - intros evs'. by apply ClientFacts.stuck_run.
Qed.

(** X19. A disconnect is followed by exactly one new attempt: the
    ['disconnect'] event stops the heartbeat and arms the reconnect timer for
    [reconnectInterval]; when that timer fires the agent opens one new
    socket to the configured relay with the configured token, is connecting
    again, has its heartbeat interval armed again and no reconnect timer
    left. *)
Theorem disconnect_then_reconnect evs sid :
  let st := (run config axios (start config).1 evs).1 in
  let st1 := (step config axios st (SocketDisconnect sid)).1 in
  sockets st !! sid = Some SockConnected →
  ∃ tid,
    reconnectTimeout st1 = Some tid ∧
    timers st1 !! tid = Some {| kind := ReconnectOnce; delay := reconnectInterval config |} ∧
    heartbeat_timers st1 = ∅ ∧
    connection_state st1 = Disconnected ∧
    (step config axios st1 (TimerFires tid)).2 =
      [IoConnect (length (sockets st)) (serverUrl config) (authToken config)] ∧
    connection_state (step config axios st1 (TimerFires tid)).1 = Connecting ∧
    reconnect_timers (step config axios st1 (TimerFires tid)).1 = ∅ ∧
    (∃ hb, heartbeat_timers (step config axios st1 (TimerFires tid)).1 !! hb =
             Some {| kind := HeartbeatTick; delay := heartbeatInterval config |}).
Proof.
  intros st st1 Hs.
  pose proof (reachable_wired evs) as Hw. fold st in Hw.
  pose proof (ClientFacts.agent_reachable_inv config axios evs) as Hi. fold st in Hi.
  pose proof (step_wired st (SocketDisconnect sid) Hi Hw) as Hw1.
  pose proof (ClientFacts.agent_step_inv config axios st (SocketDisconnect sid) Hi) as Hi1.
  fold st1 in Hw1, Hi1.
  pose proof (close_current_all_closed st sid _ Hw Hs ltac:(done)) as Hclosed.
  pose proof (wired_current config st Hw sid _ Hs ltac:(done)) as Hcur.
  assert (∃ st0, st1 = scheduleReconnect config st0 ∧ heartbeatHandle st0 = None ∧
                 sockets st0 = <[sid := SockClosed]> (sockets st) ∧ socket st0 = Some sid)
    as (st0 & Est1 & Hhb0 & Hsocks0 & Hsock0).
  { exists (stopHeartbeat (set_sockets (<[sid := SockClosed]> (sockets st)) st)).
    subst st1. simpl. rewrite Hs. simpl. split; [done|].
    unfold stopHeartbeat. simpl. destruct (heartbeatHandle st) eqn:E; simpl; rewrite ?E; done. }
  set (st0' := match reconnectTimeout st0 with Some h => clear h st0 | None => st0 end).
  assert (heartbeatHandle st0' = None ∧ sockets st0' = sockets st0 ∧ socket st0' = socket st0)
    as (Hhb0' & Hsocks0' & Hsock0').
  { subst st0'. by destruct (reconnectTimeout st0). }
  assert (reconnectTimeout st1 = Some (next_timer st0') ∧
          timers st1 = <[next_timer st0' := {| kind := ReconnectOnce;
                                                delay := reconnectInterval config |}]>
                         (timers st0') ∧
          heartbeatHandle st1 = None ∧ sockets st1 = <[sid := SockClosed]> (sockets st) ∧
          socket st1 = Some sid) as (Hrt1 & Htm1 & Hhb1 & Hsocks1 & Hsock1).
  { rewrite Est1. unfold scheduleReconnect. fold st0'. simpl.
    rewrite Hhb0', Hsocks0', Hsocks0, Hsock0', Hsock0. done. }
  assert (sockets st1 !! sid = Some SockClosed) as Hsid1.
  { rewrite Hsocks1. apply list_lookup_insert_eq. by eapply lookup_lt_Some. }
  exists (next_timer st0').
  assert (timers st1 !! next_timer st0' =
          Some {| kind := ReconnectOnce; delay := reconnectInterval config |}) as Ht1.
  { rewrite Htm1. apply lookup_insert_eq. }
  split; [done|]. split; [done|]. split; [by apply no_heartbeat_if_unset|].
  split; [unfold connection_state; by rewrite Hsock1, Hsid1|].
  pose proof (step_wired st1 (TimerFires (next_timer st0')) Hi1 Hw1) as Hw2.
  assert (step config axios st1 (TimerFires (next_timer st0')) =
          (startHeartbeat config
             (set_socket (Some (length (sockets st)))
                (set_sockets (sockets st1 ++ [SockOpening]) (clear (next_timer st0') st1))),
           [IoConnect (length (sockets st)) (serverUrl config) (authToken config)])) as Hstep.
  { simpl. rewrite Ht1. unfold on_timer. simpl. unfold connect, connected. simpl.
    rewrite Hsock1, Hsid1. simpl. rewrite Hsocks1, length_insert. done. }
  rewrite Hstep in Hw2 |- *. cbn [fst snd] in Hw2 |- *.
  set (st2 := startHeartbeat config
                (set_socket (Some (length (sockets st)))
                   (set_sockets (sockets st1 ++ [SockOpening])
                      (clear (next_timer st0') st1)))) in *.
  assert (socket st2 = Some (length (sockets st)) ∧
          sockets st2 = sockets st1 ++ [SockOpening]) as [Hsock2 Hsocks2].
  { subst st2. unfold startHeartbeat. simpl. by destruct (heartbeatHandle st1). }
  assert (sockets st2 !! length (sockets st) = Some SockOpening) as Hopen2.
  { rewrite Hsocks2. apply lookup_snoc_Some. right. by rewrite Hsocks1, length_insert. }
  split; [done|]. split; [unfold connection_state; by rewrite Hsock2, Hopen2|].
  split; [by apply (no_reconnect_if_open st2 _ _ Hw2 Hopen2)|].
  destruct (wired_alive config st2 Hw2 _ _ Hopen2 ltac:(done)) as (hb & t & Hhb & Ht & Hk).
  exists hb. apply map_lookup_filter_Some. simpl.
  destruct (wired_heartbeat config st2 Hw2 hb t Ht Hk) as [_ Hd].
  destruct t as [k d]. simpl in *. subst k d. done.
Qed.

(** X20. Entering [Connected]: when ['connect'] arrives on the opening
    socket the agent is connected on [this.socket], [this.reconnectTimeout]
    is null and no reconnect timer is armed, and the heartbeat interval is
    armed; nothing is emitted. *)
Theorem connect_event_connects evs sid :
  let st := (run config axios (start config).1 evs).1 in
  let st' := (step config axios st (SocketConnect sid)).1 in
  sockets st !! sid = Some SockOpening →
  (step config axios st (SocketConnect sid)).2 = [] ∧
  connection_state st' = Connected ∧
  socket st' = Some sid ∧
  reconnectTimeout st' = None ∧
  reconnect_timers st' = ∅ ∧
  (∃ hb, heartbeatHandle st' = Some hb ∧
         heartbeat_timers st' !! hb =
           Some {| kind := HeartbeatTick; delay := heartbeatInterval config |}).
Proof.
  intros st st' Hs.
  pose proof (reachable_wired evs) as Hw. fold st in Hw.
  pose proof (ClientFacts.agent_reachable_inv config axios evs) as Hi. fold st in Hi.
  pose proof (step_wired st (SocketConnect sid) Hi Hw) as Hw'. fold st' in Hw'.
  pose proof (wired_current config st Hw sid _ Hs ltac:(done)) as Hcur.
  assert (st' = on_connect (set_sockets (<[sid := SockConnected]> (sockets st)) st)) as Est'.
  { subst st'. simpl. by rewrite Hs. }
  assert (socket st' = Some sid ∧ sockets st' = <[sid := SockConnected]> (sockets st) ∧
          reconnectTimeout st' = None) as (Hsock & Hsocks & Hrt).
  { rewrite Est'. unfold on_connect. simpl.
    destruct (reconnectTimeout st) eqn:E; simpl; rewrite ?E; done. }
  assert (sockets st' !! sid = Some SockConnected) as Hsid.
  { rewrite Hsocks. apply list_lookup_insert_eq. by eapply lookup_lt_Some. }
  split; [simpl; by rewrite Hs|].
  split; [unfold connection_state; by rewrite Hsock, Hsid|].
  split; [done|]. split; [done|].
  split; [by apply (no_reconnect_if_open st' sid _ Hw' Hsid)|].
  destruct (wired_alive config st' Hw' _ _ Hsid ltac:(done)) as (hb & t & Hhb & Ht & Hk).
  exists hb. split; [done|]. apply map_lookup_filter_Some. simpl.
  destruct (wired_heartbeat config st' Hw' hb t Ht Hk) as [_ Hd].
  destruct t as [k d]. simpl in *. subst k d. done.
Qed.

End Agent.

Lemma one_connection_at_a_time_witness :
  let st := (run config0 axios_ok (start config0).1
               [SocketConnect 0; SocketDisconnect 0; TimerFires 1]).1 in
  sockets st = [SockClosed; SockOpening] ∧ socket st = Some 1%nat.
Proof.
  intros st. split; [reflexivity|].
  apply (one_connection_at_a_time config0 axios_ok
           [SocketConnect 0; SocketDisconnect 0; TimerFires 1]
           1 SockOpening 1 SockOpening); done.
Defined.

Lemma reconnect_only_while_disconnected_witness :
  let st := (run config0 axios_ok (start config0).1 [SocketConnect 0; SocketDisconnect 0]).1 in
  reconnect_timers st !! 1%nat = Some {| kind := ReconnectOnce; delay := 5000 |} ∧
  connection_state st = Disconnected ∧ reconnectTimeout st = Some 1%nat.
Proof.
  intros st.
  assert (reconnect_timers st !! 1%nat = Some {| kind := ReconnectOnce; delay := 5000 |})
    as Ht by (by vm_compute).
  split; [exact Ht|].
  destruct (reconnect_only_while_disconnected config0 axios_ok
              [SocketConnect 0; SocketDisconnect 0] 1 _ Ht) as (H1 & H2 & _).
  split; [exact H1 | exact H2].
Defined.

Lemma heartbeat_timer_unique_witness :
  let st := (run config0 axios_ok (start config0).1
               [SocketConnect 0; SocketDisconnect 0; TimerFires 1; SocketConnect 1]).1 in
  heartbeat_timers st !! 2%nat = Some {| kind := HeartbeatTick; delay := 30000 |} ∧
  heartbeatHandle st = Some 2%nat.
Proof.
  intros st.
  assert (heartbeat_timers st !! 2%nat = Some {| kind := HeartbeatTick; delay := 30000 |})
    as Ht by (by vm_compute).
  split; [exact Ht|].
  by destruct (heartbeat_timer_unique config0 axios_ok
                 [SocketConnect 0; SocketDisconnect 0; TimerFires 1; SocketConnect 1]
                 2 _ 2 _ Ht Ht) as (_ & H & _).
Defined.

Lemma keepalive_while_connected_witness :
  let st := (run config0 axios_ok (start config0).1 [SocketConnect 0]).1 in
  connection_state st = Connected ∧
  step config0 axios_ok st (TimerFires 0) = (st, [EmitHeartbeat 0]) ∧
  connection_state (start config0).1 = Connecting ∧
  step config0 axios_ok (start config0).1 (TimerFires 0) = ((start config0).1, []).
Proof.
  intros st. split; [reflexivity|]. split; [|split; [reflexivity|]].
  - destruct (keepalive_while_connected config0 axios_ok [SocketConnect 0]) as [H _].
    destruct (H eq_refl) as (tid & sid & Hhb & Hsock & Hstep).
    assert (tid = 0%nat) as -> by (by injection Hhb).
    assert (sid = 0%nat) as -> by (by injection Hsock).
    exact Hstep.
  - destruct (keepalive_while_connected config0 axios_ok []) as [_ H].
    apply (H ltac:(discriminate) 0%nat {| kind := HeartbeatTick; delay := 30000 |});
      reflexivity.
Defined.

Lemma handshake_failure_sticks_witness :
  let st' := (step config0 axios_ok (start config0).1 (SocketConnectError 0)).1 in
  sockets (start config0).1 !! 0%nat = Some SockOpening ∧
  connection_state st' = Disconnected ∧
  run config0 axios_ok st' [TimerFires 0; SocketConnect 0; TimerFires 0] = (st', []).
Proof.
  intros st'. split; [reflexivity|].
  destruct (handshake_failure_sticks config0 axios_ok [] 0 eq_refl) as (H1 & _ & H3).
  split; [exact H1 | apply H3].
Defined.

Lemma disconnect_then_reconnect_witness :
  let st := (run config0 axios_ok (start config0).1 [SocketConnect 0]).1 in
  let st1 := (step config0 axios_ok st (SocketDisconnect 0)).1 in
  sockets st !! 0%nat = Some SockConnected ∧
  (step config0 axios_ok st1 (TimerFires 1)).2 = [IoConnect 1 "http://localhost:3000" EmptyString] ∧
  connection_state (step config0 axios_ok st1 (TimerFires 1)).1 = Connecting.
Proof.
  intros st st1. split; [reflexivity|].
  destruct (disconnect_then_reconnect config0 axios_ok [SocketConnect 0] 0 eq_refl)
    as (tid & Hrt & _ & _ & _ & Hout & Hconn & _).
  assert (tid = 1%nat) as -> by (by injection Hrt).
  split; [exact Hout | exact Hconn].
Defined.

Lemma connect_event_connects_witness :
  let st := (run config0 axios_ok (start config0).1
               [SocketConnect 0; SocketDisconnect 0; TimerFires 1]).1 in
  let st' := (step config0 axios_ok st (SocketConnect 1)).1 in
  sockets st !! 1%nat = Some SockOpening ∧
  connection_state st' = Connected ∧ reconnectTimeout st' = None.
Proof.
  intros st st'. split; [reflexivity|].
  destruct (connect_event_connects config0 axios_ok
              [SocketConnect 0; SocketDisconnect 0; TimerFires 1] 1 eq_refl)
    as (_ & H1 & _ & H2 & _).
  split; [exact H1 | exact H2].
Defined.

End ClientMore.

(** * Further properties of the tunnel end to end *)

Module TunnelMore.
Import Server Samples.

#[local] Set Warnings "-clear-no-such-hyp".




(** X22. A local service that cannot be reached shows to the public caller
    as a 500 carried through the tunnel: the agent answers the request with
    status 500, no headers and the body [{ error: message }], the message
    being 'Local service is not running' when the connection was refused and
    the error's own message otherwise; the relay sets no header and sends
    that status and body. *)
Theorem unreachable_round_trip env evs config axios req c code message csid evs' :
  let st := (run env init evs).1 in
  let rid := next_request st in
  let sid := socket_id (socket c) in
  let st1 := (step env st (HttpRequest req)).1 in
  let st2 := (run env st1 evs').1 in
  let diagnostic := if decide (code = "ECONNREFUSED")
                    then "Local service is not running" else message in
  activeClient st = Some c →
  axios (Client.axios_config config req) = Client.AxiosError code message →
  sid ∈ listening st2 →
  rid ∈ pending st2 →
  ∃ response,
    (step env st (HttpRequest req)).2 = [EmitTunnelRequest sid rid req] ∧
    Client.on_tunnel_request config axios csid rid req = [Client.Callback csid rid response] ∧
    (step env st2 (Ack sid rid response)).2 = [ResSend rid 500 (error_body diagnostic)].
Proof.
  intros st rid sid st1 st2 diagnostic Ha Hax Hup Hp.
  pose proof (ServerFacts.reachable_inv env evs) as Hi. fold st in Hi.
  pose proof (ServerFacts.step_inv env st (HttpRequest req) Hi) as Hi1. fold st1 in Hi1.
  pose proof (ServerFacts.run_inv env evs' st1 Hi1) as Hi2. fold st2 in Hi2.
  set (r := {| rq_socket := sid; rq_timer := Some (now st + 30000)%N;
               rq_ack := true; rq_promise := Pending |}).
  assert (requests st1 !! rid = Some r) as Hr1.
  { unfold st1. simpl. unfold on_request. rewrite Ha. simpl. apply lookup_insert_eq. }
  destruct (ServerFacts.run_evolves env evs' st1 rid r Hi1 Hr1) as (r2 & Hr2 & He2 & _).
  fold st2 in Hr2. apply ServerFacts.elem_of_pending in Hp as (r2' & Hr2' & Hp2).
  assert (r2' = r2) as -> by congruence. rewrite (He2 Hp2) in Hr2. clear He2 Hr2' Hp2 r2.
  exists {| statusCode := 500; res_headers := []; res_body := error_body diagnostic |}.
  split; [|split].
  - simpl. unfold on_request. by rewrite Ha.
  - unfold Client.on_tunnel_request, Client.handleTunnelRequest. rewrite Hax.
    subst diagnostic. by destruct (decide _).
  - simpl. rewrite Hr2. simpl.
    destruct (decide (_ ∧ _)) as [Hok|Hno]; [|by destruct Hno].
    unfold on_ack. simpl. unfold after_await. simpl.
    rewrite (inv_listening st2 Hi2) in Hup.
    destruct (activeClient st2) as [c2|]; [done | set_solver].
Qed.

Lemma unreachable_round_trip_witness :
  let st := (run env0 init [Connect token0]).1 in
  let st2 := (run env0 (step env0 st (HttpRequest get_status)).1 [Advance 10]).1 in
  0%nat ∈ listening st2 ∧ 0%nat ∈ pending st2 ∧
  ∃ response,
    Client.on_tunnel_request config0 axios_refused 0 0 get_status =
      [Client.Callback 0 0 response] ∧
    (step env0 st2 (Ack 0 0 response)).2 =
      [ResSend 0 500 (error_body "Local service is not running")].
Proof.
  intros st st2.
  assert (0%nat ∈ listening st2) as Hup by (by vm_compute).
  assert (0%nat ∈ pending st2) as Hp by (by vm_compute).
  split; [exact Hup|]. split; [exact Hp|].
  destruct (unreachable_round_trip env0 [Connect token0] config0 axios_refused get_status
              {| socket := {| socket_id := 0; data_clientId := "agent-1" |};
                 authenticated := true; lastHeartbeat := 0 |}
              "ECONNREFUSED" "connect ECONNREFUSED 127.0.0.1:3300" 0 [Advance 10]
              eq_refl eq_refl Hup Hp) as (response & _ & Hcb & Hout).
  exists response. split; [exact Hcb | exact Hout].
Defined.

End TunnelMore.

(** * Properties of the start-up configuration *)

Module BootstrapFacts.
Import Bootstrap.

Lemma split_cons sep s : ∃ piece pieces, split sep s = piece :: pieces.
Proof.
  destruct s as [|c rest]; simpl; [by eexists _, _|].
  destruct (decide (c = sep)); [by eexists _, _|].
  destruct (split sep rest); by eexists _, _.
Qed.

Lemma join_split sep s : join sep (split sep s) = s.
Proof.
  induction s as [|c rest IH]; [done|]. simpl.
  destruct (split_cons sep rest) as (piece & pieces & Hs). rewrite Hs in IH |- *.
  destruct (decide (c = sep)) as [->|Hne]; simpl.
  - by rewrite <- IH.
  - rewrite <- IH. by destruct pieces.
Qed.

Lemma split_length sep s : length (split sep s) = S (occurrences sep s).
Proof.
  induction s as [|c rest IH]; [done|]. simpl.
  destruct (split_cons sep rest) as (piece & pieces & Hs). rewrite Hs in IH |- *.
  destruct (decide (c = sep)); simpl in *; lia.
Qed.

Lemma split_no_sep sep s : Forall (fun piece => occurrences sep piece = 0) (split sep s).
Proof.
  induction s as [|c rest IH]; simpl; [by repeat constructor|].
  destruct (split_cons sep rest) as (piece & pieces & Hs). rewrite Hs in IH |- *.
  apply Forall_cons in IH as [Hp Hps].
  destruct (decide (c = sep)) as [->|Hne].
  - repeat (constructor; try done).
  - constructor; [|done]. simpl. by rewrite decide_False.
Qed.

(** X23. The allowed origins are the pieces of [ALLOWED_ORIGINS] between its
    commas, taken as they are: joined with commas they give the variable
    back, there is one more of them than there are commas, and none holds a
    comma.  The wildcard is the configuration only when the variable is not
    set: a variable that is set never yields an empty list, and an empty
    variable yields the single origin [''], not ['*']. *)
Theorem allowed_origins_pieces v :
  (v = None → allowed_origins v = ["*"]) ∧
  (v = Some EmptyString → allowed_origins v = [EmptyString]) ∧
  (∀ s, v = Some s →
     join ","%char (allowed_origins v) = s ∧
     length (allowed_origins v) = S (occurrences ","%char s) ∧
     Forall (fun origin => occurrences ","%char origin = 0) (allowed_origins v)).
Proof.
  split; [by intros ->|]. split; [by intros ->|].
  intros s ->. simpl.
  split; [apply join_split|]. split; [apply split_length | apply split_no_sep].
Qed.

Lemma allowed_origins_pieces_witness :
  allowed_origins (Some "https://a.example, https://b.example") =
    ["https://a.example"; " https://b.example"] ∧
  join ","%char (allowed_origins (Some "https://a.example, https://b.example")) =
    "https://a.example, https://b.example" ∧
  allowed_origins (Some "a,,b,") = ["a"; EmptyString; "b"; EmptyString].
Proof.
  split; [reflexivity|]. split; [|reflexivity].
  by destruct (allowed_origins_pieces (Some "https://a.example, https://b.example"))
    as (_ & _ & H); destruct (H _ eq_refl) as (Hj & _).
Defined.

End BootstrapFacts.
